(** * Darts scorer: [calcPoints] and [possibleCheckout] of src/darts.ts

    A shallow embedding of the two exported functions of [darts.ts],
    together with the parts of the JavaScript run-time they call:
    [String.prototype.split] with the pattern [/[\s-]/], the [Number]
    coercion of a string, and the arithmetic and comparisons on numbers.

    Modelling choices.
    - A JavaScript string is a sequence of UTF-16 code units; a code unit
      is an [N].
    - A JavaScript number is [NaN], an infinity, or a finite value.  Finite
      values are kept exact, as reduced fractions: the rounding of IEEE
      doubles is not modelled.  On integers of magnitude below 2^53, which
      is all that the scoring needs, exact and double arithmetic agree.
      The sign of zero is not modelled either.
    - A call either completes normally with a value or throws.

    The same run-time carries the other exercises of the repository, which
    follow the darts scorer: [isValid] of src/isbn13.ts, [play] of
    src/rock-paper-scissors.ts and [formatDuration].  For these the
    run-time gains [===], [%], [/], [Math.floor], [Math.round], the
    truth value of a number and the text of an integer;
    [String.prototype.toLowerCase] is a parameter of [play]. *)

From Stdlib Require Import ZArith QArith Qround DecimalString DecimalN.
From Stdlib Require Import String Ascii Bool List.
From Stdlib Require Import Lia Lqa Recdef.
Import ListNotations.

Local Open Scope Z_scope.

(** ** Strings *)

Definition code_unit := N.
Definition jsstring := list code_unit.

(** The string literal of the source text, as code units. *)
Definition js (s : string) : jsstring :=
  map N_of_ascii (list_ascii_of_string s).

Fixpoint jsstring_eqb (a b : jsstring) : bool :=
  match a, b with
  | [], [] => true
  | x :: a', y :: b' => N.eqb x y && jsstring_eqb a' b'
  | _, _ => false
  end.

(** WhiteSpace and LineTerminator of ECMAScript: what [\s] matches, and what
    the [Number] coercion strips at both ends. *)
Definition is_white_space (c : code_unit) : bool :=
  existsb (N.eqb c)
    [9; 10; 11; 12; 13; 32; 160; 5760; 8232; 8233; 8239; 8287; 12288; 65279]%N
  || (N.leb 8192 c && N.leb c 8202).

Definition hyphen : code_unit := 45%N.

(** The character class [[\s-]]. *)
Definition is_separator (c : code_unit) : bool :=
  is_white_space c || N.eqb c hyphen.

(** [hits.split(/[\s-]/)]: the pattern matches exactly one code unit, so the
    string is cut at every separator; two separators in a row, or one at
    either end, leave an empty token.  The empty string gives one empty
    token. *)
Fixpoint split (s : jsstring) : list jsstring :=
  match s with
  | [] => [[]]
  | c :: rest =>
      if is_separator c then [] :: split rest
      else match split rest with
           | tok :: toks => (c :: tok) :: toks
           | [] => [[c]]
           end
  end.

(** ** Numbers *)

Inductive number : Type :=
| NaN
| Inf (negative : bool)
| Fin (q : Q).

Definition of_Z (z : Z) : number := Fin (z # 1).

Declare Scope number_scope.
Delimit Scope number_scope with num.
Bind Scope number_scope with number.

(** [a < b] of JavaScript: false as soon as one side is NaN. *)
Definition less_than (a b : number) : bool :=
  match a, b with
  | NaN, _ | _, NaN => false
  | Inf true, Inf true => false
  | Inf true, _ => true
  | Inf false, _ => false
  | Fin _, Inf negative => negb negative
  | Fin p, Fin q => match Qcompare p q with Lt => true | _ => false end
  end.

Definition greater_than (a b : number) : bool := less_than b a.

Definition mul (a b : number) : number :=
  match a, b with
  | NaN, _ | _, NaN => NaN
  | Inf s, Inf t => Inf (xorb s t)
  | Inf s, Fin q | Fin q, Inf s =>
      match Qcompare q 0 with
      | Eq => NaN
      | Lt => Inf (negb s)
      | Gt => Inf s
      end
  | Fin p, Fin q => Fin (Qred (p * q))
  end.

Definition add (a b : number) : number :=
  match a, b with
  | NaN, _ | _, NaN => NaN
  | Inf s, Inf t => if Bool.eqb s t then Inf s else NaN
  | Inf s, Fin _ | Fin _, Inf s => Inf s
  | Fin p, Fin q => Fin (Qred (p + q))
  end.

Infix "<?" := less_than : number_scope.
Infix ">?" := greater_than : number_scope.
Infix "*" := mul : number_scope.
Infix "+" := add : number_scope.

(** ** The [Number] coercion of a string (StringToNumber) *)

Module StringToNumber.

(** Value of a digit in a radix up to 16, when it is one. *)
Definition digit (radix : Z) (c : code_unit) : option Z :=
  let v :=
    if (N.leb 48 c && N.leb c 57)%bool then Z.of_N c - 48
    else if (N.leb 97 c && N.leb c 102)%bool then Z.of_N c - 87
    else if (N.leb 65 c && N.leb c 70)%bool then Z.of_N c - 55
    else radix in
  if v <? radix then Some v else None.

(** The longest prefix of digits, as digit values, and what follows. *)
Fixpoint digits (radix : Z) (s : jsstring) : list Z * jsstring :=
  match s with
  | [] => ([], [])
  | c :: rest =>
      match digit radix c with
      | Some v => let (ds, tl) := digits radix rest in (v :: ds, tl)
      | None => ([], s)
      end
  end.

Definition value (radix : Z) (ds : list Z) : Z :=
  fold_left (fun acc d => acc * radix + d) ds 0.

Definition is_nil {A} (l : list A) : bool :=
  match l with [] => true | _ => false end.

(** An optional sign, [+] or [-]: whether it is [-], and what follows. *)
Definition signed (s : jsstring) : bool * jsstring :=
  match s with
  | c :: rest =>
      if N.eqb c 43 then (false, rest)
      else if N.eqb c hyphen then (true, rest)
      else (false, s)
  | [] => (false, [])
  end.

(** ExponentPart, optional: [e] or [E], an optional sign, digits. *)
Definition exponent (s : jsstring) : option Z :=
  match s with
  | [] => Some 0
  | c :: rest =>
      if (N.eqb c 101 || N.eqb c 69)%bool then
        let (negative, body) := signed rest in
        match digits 10 body with
        | (d :: ds, []) =>
            let e := value 10 (d :: ds) in
            Some (if negative : bool then - e else e)
        | _ => None
        end
      else None
  end.

(** The mathematical value of [m * 10^e], reduced. *)
Definition scale (m e : Z) : Q :=
  if 0 <=? e then (m * 10 ^ e) # 1
  else Qred (m # Z.to_pos (10 ^ (- e))).

(** The digits after a dot, when there is a dot. *)
Definition fraction (s : jsstring) : list Z * jsstring :=
  match s with
  | c :: rest => if N.eqb c 46 then digits 10 rest else ([], s)
  | [] => ([], [])
  end.

(** StrUnsignedDecimalLiteral without [Infinity]: digits, an optional
    fraction, an optional exponent, with a digit on one side of the dot
    at least. *)
Definition unsigned_decimal (s : jsstring) : option Q :=
  let (ip, r1) := digits 10 s in
  let (fp, r2) := fraction r1 in
  if (is_nil ip && is_nil fp)%bool then None
  else match exponent r2 with
       | Some e => Some (scale (value 10 (ip ++ fp)) (e - Z.of_nat (length fp)))
       | None => None
       end.

(** StrDecimalLiteral: an optional sign, then [Infinity] or a decimal. *)
Definition decimal (s : jsstring) : number :=
  let (negative, body) := signed s in
  if jsstring_eqb body (js "Infinity") then Inf negative
  else match unsigned_decimal body with
       | Some q => Fin (if negative : bool then Qopp q else q)
       | None => NaN
       end.

(** NonDecimalIntegerLiteral: [0x], [0o] or [0b] in either case, then
    digits of that radix only; no sign. *)
Definition radix_of_prefix (p : code_unit) : option Z :=
  if (N.eqb p 120 || N.eqb p 88)%bool then Some 16
  else if (N.eqb p 111 || N.eqb p 79)%bool then Some 8
  else if (N.eqb p 98 || N.eqb p 66)%bool then Some 2
  else None.

Definition non_decimal (s : jsstring) : option Z :=
  match s with
  | zero :: p :: body =>
      match N.eqb zero 48, radix_of_prefix p with
      | true, Some r =>
          match digits r body with
          | (d :: ds, []) => Some (value r (d :: ds))
          | _ => None
          end
      | _, _ => None
      end
  | _ => None
  end.

Fixpoint drop_white_space (s : jsstring) : jsstring :=
  match s with
  | c :: rest => if is_white_space c then drop_white_space rest else s
  | [] => []
  end.

Definition trim (s : jsstring) : jsstring :=
  rev (drop_white_space (rev (drop_white_space s))).

End StringToNumber.

(** [Number(s)] for a string [s]: white space at both ends is dropped; the
    empty string is 0; a string that is no numeric literal is NaN. *)
Definition Number (s : jsstring) : number :=
  match StringToNumber.trim s with
  | [] => of_Z 0
  | t =>
      match StringToNumber.non_decimal t with
      | Some z => of_Z z
      | None => StringToNumber.decimal t
      end
  end.

(** ** Completions *)

Inductive error : Type :=
| Error (message : string).

Inductive completion (A : Type) : Type :=
| Normal (value : A)
| Throw (e : error).
Arguments Normal {A} value.
Arguments Throw {A} e.

(** ** calcPoints *)

(** The conditions of the two guards. *)
Definition multiplier_rejected (multiplier : number) : bool :=
  (multiplier <? of_Z 1)%num || (multiplier >? of_Z 3)%num.

Definition sector_rejected (sector : number) : bool :=
  (sector <? of_Z 0)%num || (sector >? of_Z 25)%num.

(** One turn of the loop body: both [continue] statements leave [points] as
    it is, the last statement adds the product. *)
Definition turn (points multiplier sector : number) : number :=
  if multiplier_rejected multiplier then points
  else if sector_rejected sector then points
  else (points + multiplier * sector)%num.

(** [splitted[i]]: reading past the end gives [undefined], which the
    comparisons and the product coerce to NaN. *)
Definition index (splitted : list number) (i : nat) : number :=
  nth i splitted NaN.

(** [for (let i = 0; i < splitted.length - 1; i += 2) { ... }], from the
    current [i] and [points] to the value of [points] at the exit. *)
Function loop (splitted : list number) (i : nat) (points : number)
  {measure (fun i => (length splitted - i)%nat) i} : number :=
  if Z_lt_dec (Z.of_nat i) (Z.of_nat (length splitted) - 1) then
    let multiplier := index splitted i in
    let sector := index splitted (i + 1) in
    loop splitted (i + 2) (turn points multiplier sector)
  else points.
Proof. intros. lia. Defined.

Definition calcPoints (hits : jsstring) : completion number :=
  let splitted := map Number (split hits) in
  let points := of_Z 0 in
  Normal (loop splitted 0 points).

(** ** possibleCheckout *)

(** The console, as the list of values logged so far. *)
Definition console := list number.

(** [console.log(x); throw new Error("not implemented yet")] *)
Definition possibleCheckout (x : number) (out : console)
  : console * completion jsstring :=
  let out := out ++ [x] in
  (out, Throw (Error "not implemented yet")).


(** ** The scoring rule in the words of the specification *)

(** Consecutive (multiplier, sector) pairs, left to right; a token left
    over at the end belongs to no pair. *)
Fixpoint pairs (zs : list Z) : list (Z * Z) :=
  match zs with
  | multiplier :: sector :: rest => (multiplier, sector) :: pairs rest
  | _ => []
  end.

Definition in_range (p : Z * Z) : bool :=
  let (multiplier, sector) := p in
  (1 <=? multiplier) && (multiplier <=? 3) && (0 <=? sector) && (sector <=? 25).

Definition product (p : Z * Z) : Z := fst p * snd p.

Definition total (ps : list (Z * Z)) : Z := fold_right Z.add 0 (map product ps).

(** The sum of multiplier x sector over the pairs in range. *)
Definition pair_sum (zs : list Z) : Z := total (filter in_range (pairs zs)).

Definition no_separator (tok : jsstring) : bool :=
  forallb (fun c => negb (is_separator c)) tok.

(** The checkout rule as the specification words it: ["Double " + n] when
    [remaining] is twice an [n] in 1..20 or 25, ["No Checkout"] otherwise. *)
Definition checkout_rule (remaining : Z) : jsstring :=
  let n := remaining / 2 in
  if Z.even remaining && (((1 <=? n) && (n <=? 20)) || (n =? 25))
  then js "Double " ++ js (NilEmpty.string_of_uint (N.to_uint (Z.to_N n)))
  else js "No Checkout".

(** The loop as a recursion on what is left of the array, two elements at
    a time; [loop_score] below shows that the loop computes it. *)
Fixpoint score (points : number) (rest : list number) : number :=
  match rest with
  | multiplier :: sector :: rest' => score (turn points multiplier sector) rest'
  | _ => points
  end.

Definition non_negative_integer (n : number) : Prop :=
  exists z : Z, 0 <= z /\ n = of_Z z.

(** ** Further notions for the scoring *)

(** Two strings that differ only in which separator stands at each cut. *)
Definition same_up_to_separators (a b : jsstring) : Prop :=
  Forall2 (fun x y => x = y \/ (is_separator x = true /\ is_separator y = true)) a b.

(** [p] is NaN or a finite value from 0 to [bound]. *)
Definition NaN_or_within (bound : Z) (p : number) : Prop :=
  p = NaN \/ exists q : Q, p = Fin q /\ (0 <= q)%Q /\ (q <= inject_Z bound)%Q.

(** ** More of the run-time: [===], [%], [/], [Math.floor], [Math.round] *)

(** [a === b] on numbers. *)
Definition strict_equal (a b : number) : bool :=
  match a, b with
  | Fin p, Fin q => Qeq_bool p q
  | Inf s, Inf t => Bool.eqb s t
  | _, _ => false
  end.

(** The integer part of a fraction, towards zero. *)
Definition truncate (q : Q) : Z := Z.quot (Qnum q) (Zpos (Qden q)).

(** [a % b]: the remainder has the sign of [a]. *)
Definition remainder (a b : number) : number :=
  match a, b with
  | NaN, _ | _, NaN | Inf _, _ => NaN
  | Fin p, Inf _ => Fin (Qred p)
  | Fin p, Fin q =>
      if Qeq_bool q 0 then NaN
      else Fin (Qred (p - q * inject_Z (truncate (p / q))))
  end.

Infix "===" := strict_equal (at level 70) : number_scope.
Infix "mod" := remainder : number_scope.

(** [a / b]; a zero divisor is taken as +0. *)
Definition divide (a b : number) : number :=
  match a, b with
  | NaN, _ | _, NaN => NaN
  | Inf _, Inf _ => NaN
  | Inf s, Fin q => Inf (match Qcompare q 0 with Lt => negb s | _ => s end)
  | Fin _, Inf _ => Fin 0
  | Fin p, Fin q =>
      if Qeq_bool q 0 then
        match Qcompare p 0 with
        | Eq => NaN
        | Lt => Inf true
        | Gt => Inf false
        end
      else Fin (Qred (p / q))
  end.

(** [Math.floor(x)] *)
Definition Math_floor (x : number) : number :=
  match x with
  | Fin q => of_Z (Qfloor q)
  | _ => x
  end.

(** [Math.round(x)]: the nearest integer, a half going up. *)
Definition Math_round (x : number) : number :=
  match x with
  | Fin q => of_Z (Qfloor (q + (1 # 2)))
  | _ => x
  end.

(** The condition [if (x)] on a number: false for 0 and NaN. *)
Definition truthy (x : number) : bool :=
  match x with
  | NaN => false
  | Inf _ => true
  | Fin q => negb (Qeq_bool q 0)
  end.

(** ** Exceptions with any message *)

(** [new Error(message)], the message being any string. *)
Inductive exception : Type :=
| ErrorObject (message : jsstring).

Inductive outcome (A : Type) : Type :=
| Returns (value : A)
| Throws (e : exception).
Arguments Returns {A} value.
Arguments Throws {A} e.

(** ** isbn13.ts: isValid *)

(** [\d] *)
Definition is_digit (c : code_unit) : bool := N.leb 48 c && N.leb c 57.

(** [isbn.replace(/[\s-]/g, "")] *)
Definition remove_separators (isbn : jsstring) : jsstring :=
  filter (fun c => negb (is_separator c)) isbn.

(** [/^\d{13}$/.test(digits)] *)
Definition thirteen_digits (digits : jsstring) : bool :=
  (length digits =? 13)%nat && forallb is_digit digits.

(** [digits.split("")]: one string per code unit. *)
Definition split_units (digits : jsstring) : list jsstring :=
  map (fun c => [c]) digits.

(** [array.reduce(f, init)], the callback receiving the accumulator, the
    element and its index. *)
Fixpoint reduce_from {A B} (f : B -> A -> nat -> B) (i : nat) (l : list A)
    (acc : B) : B :=
  match l with
  | [] => acc
  | x :: rest => reduce_from f (S i) rest (f acc x i)
  end.

Definition reduce {A B} (f : B -> A -> nat -> B) (l : list A) (init : B) : B :=
  reduce_from f 0 l init.

(** [(acc, digit, i) => acc + digit * (i % 2 === 0 ? 1 : 3)] *)
Definition weigh (acc digit : number) (i : nat) : number :=
  (acc + digit *
     (if (of_Z (Z.of_nat i) mod of_Z 2 === of_Z 0) then of_Z 1 else of_Z 3))%num.

Definition isValid (isbn : jsstring) : bool :=
  let digits := remove_separators isbn in
  if negb (thirteen_digits digits) then false
  else
    let sum := reduce weigh (map Number (split_units digits)) (of_Z 0) in
    (sum mod of_Z 10 === of_Z 0)%num.

(** The weighted sum of digit values, weights 1 and 3 in turn, the first
    weight being that of position [i]. *)
Fixpoint weighted_sum (i : nat) (ds : list Z) : Z :=
  match ds with
  | [] => 0
  | d :: rest => d * (if Nat.even i then 1 else 3) + weighted_sum (S i) rest
  end.

(** The value of a digit character. *)
Definition digit_value (c : code_unit) : Z := Z.of_N c - 48.

(** The verdict on a string that holds no separator. *)
Definition checksum_ok (digits : jsstring) : bool :=
  thirteen_digits digits
  && (weighted_sum 0 (map digit_value digits) mod 10 =? 0).

(** ** rock-paper-scissors.ts: play *)

Section RockPaperScissors.

(** [String.prototype.toLowerCase], which follows the Unicode case tables,
    is taken as given. *)
Variable toLowerCase : jsstring -> jsstring.

(** [(move) => move.trim().toLowerCase()]; [trim] drops the same white space
    as the [Number] coercion does. *)
Definition normalize (move : jsstring) : jsstring :=
  toLowerCase (StringToNumber.trim move).

Definition validMoves : list jsstring := [js "rock"; js "paper"; js "scissors"].

(** [array.includes(x)] on strings. *)
Definition includes (l : list jsstring) (x : jsstring) : bool :=
  existsb (jsstring_eqb x) l.

Definition winMap : list (jsstring * jsstring) :=
  [(js "rock", js "scissors"); (js "scissors", js "paper");
   (js "paper", js "rock")].

(** [object[key]] on the own properties of an object literal; [None] is
    [undefined]. *)
Fixpoint property (object : list (jsstring * jsstring)) (key : jsstring)
  : option jsstring :=
  match object with
  | [] => None
  | (k, v) :: rest => if jsstring_eqb k key then Some v else property rest key
  end.

Definition invalid_move (player : jsstring) : exception :=
  ErrorObject (js "Invalid move: " ++ player).

Definition play (player1 player2 : jsstring) : outcome number :=
  let m1 := normalize player1 in
  let m2 := normalize player2 in
  if negb (includes validMoves m1) then Throws (invalid_move player1)
  else if negb (includes validMoves m2) then Throws (invalid_move player2)
  else if jsstring_eqb m1 m2 then Returns (of_Z 0)
  else
    match property winMap m1 with
    | Some beaten => if jsstring_eqb beaten m2 then Returns (of_Z 1)
                     else Returns (of_Z 2)
    | None => Returns (of_Z 2)
    end.

End RockPaperScissors.

(** Lower case of the ASCII letters, other code units unchanged. *)
Definition ascii_lower (c : code_unit) : code_unit :=
  if (N.leb 65 c && N.leb c 90)%bool then (c + 32)%N else c.

Definition is_ascii (c : code_unit) : bool := N.ltb c 128.

(** What is known of [toLowerCase] on ASCII strings. *)
Definition lowers_ascii (toLowerCase : jsstring -> jsstring) : Prop :=
  forall s, forallb is_ascii s = true -> toLowerCase s = map ascii_lower s.

(** On two valid normalised moves the verdict is that of the table. *)
Definition verdict (m1 m2 : jsstring) : Z :=
  if jsstring_eqb m1 m2 then 0
  else match property winMap m1 with
       | Some beaten => if jsstring_eqb beaten m2 then 1 else 2
       | None => 2
       end.

(** ** formatDuration *)

(** Decimal digits of a natural number. *)
Definition decimal_digits (z : Z) : jsstring :=
  js (NilEmpty.string_of_uint (N.to_uint (Z.to_N z))).

(** NaN, an infinity or an integer: the values [formatDuration] prints
    (see [printed_values_integral]). *)
Definition integral (x : number) : Prop :=
  match x with
  | Fin q => exists z : Z, q = z # 1
  | _ => True
  end.

(** The string of a number inside a template literal, for the values that
    [formatDuration] prints: NaN, the infinities and integers.  An integer
    below 10^21 in magnitude prints as its decimal digits; the exponent form
    of larger ones and the digits of fractions are not modelled, and a
    fraction is printed here as the integer below it. *)
Definition to_string (x : number) : jsstring :=
  match x with
  | NaN => js "NaN"
  | Inf false => js "Infinity"
  | Inf true => js "-Infinity"
  | Fin q =>
      let z := Qfloor q in
      if z <? 0 then hyphen :: decimal_digits (- z) else decimal_digits z
  end.

Definition duration_error : exception :=
  ErrorObject (js "Duration must be positive").

Definition formatDuration (seconds : number) : outcome jsstring :=
  if (seconds <? of_Z 0)%num then Throws duration_error
  else
    let totalSeconds := Math_round seconds in
    let hours := Math_floor (divide totalSeconds (of_Z 3600)) in
    let minutes :=
      Math_floor (divide (totalSeconds mod of_Z 3600)%num (of_Z 60)) in
    let secs := (totalSeconds mod of_Z 60)%num in
    let result := [] in
    let result :=
      if truthy hours then result ++ to_string hours ++ js "h" else result in
    let result :=
      if truthy minutes then result ++ to_string minutes ++ js "m"
      else result in
    let result :=
      if truthy secs || jsstring_eqb result []
      then result ++ to_string secs ++ js "s" else result in
    Returns result.

(** One component of the text: nothing for zero, else digits and a unit. *)
Definition component (z : Z) (unit : code_unit) : jsstring :=
  if z =? 0 then [] else decimal_digits z ++ [unit].

(** Hours, minutes and seconds as text: zero components are left out, but
    the seconds are kept when there is nothing else. *)
Definition hms (h m s : Z) : jsstring :=
  component h 104%N ++ component m 109%N
  ++ (if (s =? 0) && negb ((h =? 0) && (m =? 0)) then []
      else decimal_digits s ++ [115%N]).

(** A run of digits closed by a unit letter. *)
Definition segment : Type := jsstring * code_unit.

Definition render (l : list segment) : jsstring :=
  flat_map (fun seg : segment => fst seg ++ [snd seg]) l.

Definition well_formed (seg : segment) : Prop :=
  forallb is_digit (fst seg) = true /\ is_digit (snd seg) = false.

Definition segments (h m s : Z) : list segment :=
  (if h =? 0 then [] else [(decimal_digits h, 104%N)])
  ++ (if m =? 0 then [] else [(decimal_digits m, 109%N)])
  ++ (if (s =? 0) && negb ((h =? 0) && (m =? 0)) then []
      else [(decimal_digits s, 115%N)]).

(** * Properties *)

(** ** Tokens *)

Lemma split_not_nil (s : jsstring) : split s <> [].
Proof.
  destruct s as [|c rest]; simpl; [discriminate|].
  destruct (is_separator c); [discriminate|].
  destruct (split rest); discriminate.
Qed.

Lemma split_no_separator (s : jsstring) :
  Forall (fun tok => no_separator tok = true) (split s).
Proof.
  induction s as [|c rest IH]; simpl.
  - repeat constructor.
  - destruct (is_separator c) eqn:Hc.
    + constructor; [reflexivity | exact IH].
    + destruct (split rest) as [|tok toks].
      * repeat constructor. simpl. now rewrite Hc.
      * inversion IH; subst. constructor; [|assumption].
        simpl. rewrite Hc. simpl. assumption.
Qed.

Lemma split_token (tok : jsstring) :
  no_separator tok = true -> split tok = [tok].
Proof.
  induction tok as [|c rest IH]; simpl; [reflexivity|].
  intros H. apply andb_prop in H as [Hc Hrest].
  apply negb_true_iff in Hc. rewrite Hc, (IH Hrest). reflexivity.
Qed.

Lemma split_app (a b : jsstring) (sep : code_unit) :
  is_separator sep = true -> split (a ++ sep :: b) = split a ++ split b.
Proof.
  intros Hsep. induction a as [|c rest IH]; simpl.
  - now rewrite Hsep.
  - rewrite IH. destruct (is_separator c); [reflexivity|].
    destruct (split rest) eqn:E; [|reflexivity].
    now apply split_not_nil in E.
Qed.

Lemma split_snoc (a tok : jsstring) (sep : code_unit) :
  is_separator sep = true -> no_separator tok = true ->
  split (a ++ sep :: tok) = split a ++ [tok].
Proof.
  intros Hsep Htok.
  rewrite split_app by assumption.
  rewrite (split_token tok Htok). reflexivity.
Qed.

(** ** The loop, two elements at a time *)

Lemma skipn_two {A} (l : list A) (i : nat) (d : A) :
  (i + 1 < length l)%nat ->
  skipn i l = nth i l d :: nth (i + 1) l d :: skipn (i + 2) l.
Proof.
  revert l. induction i as [|i IH]; intros l H.
  - destruct l as [|x [|y l]]; simpl in *; try lia. reflexivity.
  - destruct l as [|x l]; simpl in *; [lia|]. apply IH. lia.
Qed.

Lemma skipn_short {A} (l : list A) (i : nat) :
  (length l <= i + 1)%nat -> skipn i l = [] \/ exists x, skipn i l = [x].
Proof.
  intros H. pose proof (length_skipn i l) as L.
  destruct (skipn i l) as [|x [|y r]]; simpl in L; [now left| right; now exists x | lia].
Qed.

Lemma loop_score (splitted : list number) (i : nat) (points : number) :
  loop splitted i points = score points (skipn i splitted).
Proof.
  functional induction (loop splitted i points).
  - rewrite (skipn_two splitted i NaN) by lia.
    match goal with IH : loop _ _ _ = score _ _ |- _ => exact IH end.
  - destruct (skipn_short splitted i) as [E | [x E]]; [lia | |]; now rewrite E.
Qed.

Lemma calcPoints_score (hits : jsstring) :
  calcPoints hits = Normal (score (of_Z 0) (map Number (split hits))).
Proof. unfold calcPoints. now rewrite loop_score. Qed.

(** ** Arithmetic on integer values *)

Lemma Qred_Z (z : Z) : Qred (z # 1) = z # 1.
Proof.
  unfold Qred.
  pose proof (Z.ggcd_gcd z 1) as Hg.
  pose proof (Z.ggcd_correct_divisors z 1) as Hd.
  destruct (Z.ggcd z 1) as [g [aa bb]]. simpl in *.
  rewrite Z.gcd_1_r in Hg. subst g. destruct Hd as [Ha Hb].
  rewrite Z.mul_1_l in Ha, Hb. now subst.
Qed.

Lemma less_than_Z (a b : Z) : (of_Z a <? of_Z b)%num = (a <? b).
Proof.
  unfold less_than, of_Z, Qcompare, Z.ltb. simpl. now rewrite !Z.mul_1_r.
Qed.

Lemma greater_than_Z (a b : Z) : (of_Z a >? of_Z b)%num = (b <? a).
Proof. apply less_than_Z. Qed.

Lemma mul_Z (a b : Z) : (of_Z a * of_Z b)%num = of_Z (a * b).
Proof.
  unfold mul, of_Z, Qmult. cbn [Qnum Qden].
  change (1 * 1)%positive with 1%positive. now rewrite Qred_Z.
Qed.

Lemma add_Z (a b : Z) : (of_Z a + of_Z b)%num = of_Z (a + b).
Proof.
  unfold add, of_Z, Qplus. cbn [Qnum Qden].
  change (1 * 1)%positive with 1%positive.
  now rewrite !Z.mul_1_r, Qred_Z.
Qed.

(** One turn on integers: the product is added when the pair is in range,
    and nothing is when it is not. *)
Lemma turn_Z (p m s : Z) :
  turn (of_Z p) (of_Z m) (of_Z s) =
  of_Z (p + if in_range (m, s) then m * s else 0).
Proof.
  unfold turn, multiplier_rejected, sector_rejected, in_range.
  rewrite !less_than_Z, !greater_than_Z, mul_Z, add_Z.
  destruct (Z.ltb_spec m 1), (Z.ltb_spec 3 m), (Z.ltb_spec s 0),
    (Z.ltb_spec 25 s), (Z.leb_spec 1 m), (Z.leb_spec m 3),
    (Z.leb_spec 0 s), (Z.leb_spec s 25); simpl; try lia;
    rewrite ?Z.add_0_r; reflexivity.
Qed.

Lemma pair_sum_cons2 (m s : Z) (zs : list Z) :
  pair_sum (m :: s :: zs) =
  (if in_range (m, s) then m * s else 0) + pair_sum zs.
Proof.
  unfold pair_sum. cbn [pairs filter].
  destruct (in_range (m, s)); reflexivity.
Qed.

(** Induction on a list two elements at a time. *)
Lemma list_ind2 {A} (P : list A -> Prop) :
  P [] -> (forall x, P [x]) ->
  (forall x y l, P l -> P (x :: y :: l)) ->
  forall l, P l.
Proof.
  intros H0 H1 H2.
  fix IH 1. intros [|x [|y l]]; [exact H0 | apply H1 | apply H2, IH].
Qed.

Lemma score_Z (zs : list Z) (p : Z) :
  score (of_Z p) (map of_Z zs) = of_Z (p + pair_sum zs).
Proof.
  revert p. induction zs as [|x|m s zs IH] using list_ind2; intros p.
  - simpl. now rewrite Z.add_0_r.
  - simpl. now rewrite Z.add_0_r.
  - simpl map. simpl score. rewrite turn_Z, IH, pair_sum_cons2.
    f_equal. lia.
Qed.

Lemma pair_sum_nonneg (zs : list Z) : 0 <= pair_sum zs.
Proof.
  induction zs as [|x|m s zs IH] using list_ind2;
    [unfold pair_sum, total; simpl; lia .. |].
  rewrite pair_sum_cons2. unfold in_range.
  destruct (Z.leb_spec 1 m), (Z.leb_spec m 3), (Z.leb_spec 0 s),
    (Z.leb_spec s 25); cbn [andb]; nia.
Qed.

(** ** Score Parser *)

(** C3: when the tokens of [hits] coerce to the integers [zs], read as
    consecutive (multiplier, sector) pairs, [calcPoints hits] is the sum of
    multiplier x sector over the pairs with 1 <= multiplier <= 3 and
    0 <= sector <= 25; the other pairs add nothing. *)
Theorem calcPoints_sum_of_valid_pairs (hits : jsstring) (zs : list Z) :
  map Number (split hits) = map of_Z zs ->
  calcPoints hits = Normal (of_Z (pair_sum zs)).
Proof.
  intros H. rewrite calcPoints_score, H, score_Z. reflexivity.
Qed.

Lemma calcPoints_sum_of_valid_pairs_witness :
  map Number (split (js "3 20 4 7 2 26 1 17"))
    = map of_Z [3; 20; 4; 7; 2; 26; 1; 17]
  /\ calcPoints (js "3 20 4 7 2 26 1 17") = Normal (of_Z 77).
Proof.
  split; [reflexivity|].
  apply (calcPoints_sum_of_valid_pairs (js "3 20 4 7 2 26 1 17")
           [3; 20; 4; 7; 2; 26; 1; 17]).
  reflexivity.
Defined.

(** C4: the three reference inputs score 85, 105 and 65. *)
Theorem calcPoints_reference_vectors :
  calcPoints (js "3 20 1 17 2 4") = Normal (of_Z 85)
  /\ calcPoints (js "2 15 1 18 3 19") = Normal (of_Z 105)
  /\ calcPoints (js "3 20 1 5") = Normal (of_Z 65).
Proof. repeat split; vm_compute; reflexivity. Qed.

Lemma Even_two {A} (x y : A) (l : list A) :
  Nat.Even (length (x :: y :: l)) -> Nat.Even (length l).
Proof. simpl. intros [k Hk]. exists (k - 1)%nat. lia. Qed.

Lemma not_Even_one {A} (x : A) : ~ Nat.Even (length [x]).
Proof. simpl. intros [k Hk]. lia. Qed.

Lemma score_app (pre rest : list number) (points : number) :
  Nat.Even (length pre) ->
  score points (pre ++ rest) = score (score points pre) rest.
Proof.
  revert points.
  induction pre as [|x|m s pre IH] using list_ind2; intros points E.
  - reflexivity.
  - now apply not_Even_one in E.
  - simpl. apply IH. exact (Even_two _ _ _ E).
Qed.

Lemma pair_sum_app (pre rest : list Z) :
  Nat.Even (length pre) ->
  pair_sum (pre ++ rest) = pair_sum pre + pair_sum rest.
Proof.
  induction pre as [|x|m s pre IH] using list_ind2; intros E.
  - reflexivity.
  - now apply not_Even_one in E.
  - simpl app. rewrite !pair_sum_cons2, IH by exact (Even_two _ _ _ E). lia.
Qed.

Lemma pair_sum_middle (pre post : list Z) (m s : Z) :
  Nat.Even (length pre) ->
  pair_sum (pre ++ m :: s :: post) =
  pair_sum pre + (if in_range (m, s) then m * s else 0) + pair_sum post.
Proof.
  intros E. rewrite pair_sum_app, pair_sum_cons2 by exact E. lia.
Qed.

(** C6: with integer tokens the call completes normally; a pair whose
    multiplier is 0 or 4, or whose sector is -1 or 26, adds nothing (the
    total is that of the pairs before and after it), and a pair with
    multiplier 1 or 3 and sector 0 or 25 adds its product.  The skipping is
    also stated on one turn of the loop, for any array element. *)
Theorem calcPoints_skips_out_of_range
    (hits : jsstring) (pre : list Z) (m s : Z) (post : list Z) :
  map Number (split hits) = map of_Z (pre ++ m :: s :: post) ->
  Nat.Even (length pre) ->
  (exists n, calcPoints hits = Normal n)
  /\ (m = 0 \/ m = 4 \/ s = -1 \/ s = 26 ->
      calcPoints hits = Normal (of_Z (pair_sum pre + pair_sum post)))
  /\ (m = 1 \/ m = 3 -> s = 0 \/ s = 25 ->
      calcPoints hits = Normal (of_Z (pair_sum pre + m * s + pair_sum post)))
  /\ (forall points multiplier sector : number,
        turn points (of_Z 0) sector = points
        /\ turn points (of_Z 4) sector = points
        /\ turn points multiplier (of_Z (-1)) = points
        /\ turn points multiplier (of_Z 26) = points).
Proof.
  intros H E.
  pose proof (calcPoints_sum_of_valid_pairs hits _ H) as C.
  rewrite (pair_sum_middle pre post m s E) in C.
  split; [eexists; exact C|]. split; [|split].
  - intros Hout. rewrite C. do 2 f_equal.
    assert (in_range (m, s) = false) as ->; [|lia].
    unfold in_range.
    destruct Hout as [-> | [-> | [-> | ->]]]; simpl;
      rewrite ?andb_false_r; reflexivity.
  - intros Hm Hs. rewrite C.
    assert (in_range (m, s) = true) as ->; [|reflexivity].
    destruct Hm as [-> | ->], Hs as [-> | ->]; reflexivity.
  - intros points multiplier sector. unfold turn.
    repeat split; try reflexivity;
      destruct (multiplier_rejected multiplier); reflexivity.
Qed.

Lemma calcPoints_skips_out_of_range_witness :
  calcPoints (js "3 0 4 20 1 25") = Normal (of_Z 25).
Proof.
  refine (proj1 (proj2 (calcPoints_skips_out_of_range
            (js "3 0 4 20 1 25") [3; 0] 4 20 [1; 25] _ _)) _).
  - reflexivity.
  - exists 1%nat. reflexivity.
  - right. left. reflexivity.
Defined.

Lemma removelast_two {A} (x y : A) (l : list A) :
  l <> [] -> removelast (x :: y :: l) = x :: y :: removelast l.
Proof. destruct l; [congruence | reflexivity]. Qed.

Lemma map_removelast {A B} (f : A -> B) (l : list A) :
  map f (removelast l) = removelast (map f l).
Proof.
  induction l as [|x [|y l] IH]; try reflexivity.
  change (f x :: map f (removelast (y :: l)) =
          f x :: removelast (map f (y :: l))).
  now rewrite IH.
Qed.

Lemma score_removelast (l : list number) (points : number) :
  Nat.Odd (length l) -> score points l = score points (removelast l).
Proof.
  revert points.
  induction l as [|x|m s l IH] using list_ind2; intros points O.
  - destruct O as [k Hk]. simpl in Hk. lia.
  - reflexivity.
  - assert (Nat.Odd (length l)) as O'.
    { destruct O as [k Hk]. simpl in Hk. exists (k - 1)%nat. lia. }
    rewrite removelast_two.
    + simpl. now apply IH.
    + intros ->. destruct O' as [k Hk]. simpl in Hk. lia.
Qed.

(** C7: when the number of tokens is odd, the last token is not read: the
    result is that of the loop on the tokens without the last one, hence
    that of any input with exactly those tokens, such as the input cut
    before the separator of its last token. *)
Theorem calcPoints_ignores_trailing_token (hits : jsstring) :
  Nat.Odd (length (split hits)) ->
  calcPoints hits =
    Normal (loop (map Number (removelast (split hits))) 0 (of_Z 0))
  /\ (forall hits', split hits' = removelast (split hits) ->
        calcPoints hits' = calcPoints hits)
  /\ (forall prefix sep tok,
        hits = prefix ++ sep :: tok ->
        is_separator sep = true -> no_separator tok = true ->
        calcPoints prefix = calcPoints hits).
Proof.
  intros O.
  assert (calcPoints hits =
          Normal (score (of_Z 0) (map Number (removelast (split hits))))) as C.
  { rewrite calcPoints_score, map_removelast.
    rewrite <- score_removelast; [reflexivity|]. now rewrite length_map. }
  split; [|split].
  - rewrite C. now rewrite loop_score.
  - intros hits' H'. rewrite C, calcPoints_score, H'. reflexivity.
  - intros prefix sep tok -> Hsep Htok.
    rewrite C, calcPoints_score, split_snoc by assumption.
    now rewrite removelast_last.
Qed.

Lemma calcPoints_ignores_trailing_token_witness :
  calcPoints (js "3 20 1") = Normal (of_Z 60)
  /\ calcPoints (js "3 20") = calcPoints (js "3 20 1").
Proof.
  assert (Nat.Odd (length (split (js "3 20 1")))) as O
    by (exists 1%nat; reflexivity).
  destruct (calcPoints_ignores_trailing_token (js "3 20 1") O) as [C [_ P]].
  split.
  - exact C.
  - apply (P (js "3 20") 32%N (js "1")); reflexivity.
Defined.

(** C8, as stated, fails: a token that is no numeric literal makes the
    result NaN, and a fractional token makes it a fraction. *)
Lemma calcPoints_not_always_integer :
  calcPoints (js "x 20") = Normal NaN
  /\ ~ non_negative_integer NaN
  /\ calcPoints (js "1.5 3") = Normal (Fin (9 # 2))
  /\ ~ non_negative_integer (Fin (9 # 2)).
Proof.
  repeat split; try (vm_compute; reflexivity);
    intros [z [_ H]]; discriminate H.
Qed.

(** C8, amended: when every token coerces to an integer, the result is a
    non-negative integer. *)
Theorem calcPoints_non_negative_integer (hits : jsstring) (zs : list Z) :
  map Number (split hits) = map of_Z zs ->
  exists n, calcPoints hits = Normal n /\ non_negative_integer n.
Proof.
  intros H. exists (of_Z (pair_sum zs)). split.
  - rewrite calcPoints_score, H, score_Z. reflexivity.
  - exists (pair_sum zs). split; [apply pair_sum_nonneg | reflexivity].
Qed.

Lemma calcPoints_non_negative_integer_witness :
  exists n, calcPoints (js "3 20-0x2 5 7") = Normal n /\ non_negative_integer n.
Proof.
  apply (calcPoints_non_negative_integer (js "3 20-0x2 5 7") [3; 20; 2; 5; 7]).
  reflexivity.
Defined.

(** ** NaN *)

Lemma turn_NaN_points (m s : number) : turn NaN m s = NaN.
Proof.
  unfold turn.
  destruct (multiplier_rejected m); [reflexivity|].
  destruct (sector_rejected s); reflexivity.
Qed.

Lemma score_NaN (rest : list number) : score NaN rest = NaN.
Proof.
  induction rest as [|x|m s rest IH] using list_ind2; try reflexivity.
  simpl. now rewrite turn_NaN_points.
Qed.

Lemma add_NaN_r (a : number) : (a + NaN)%num = NaN.
Proof. now destruct a. Qed.

Lemma mul_NaN_r (a : number) : (a * NaN)%num = NaN.
Proof. now destruct a. Qed.

(** C9: [calcPoints] completes normally on every string; ["x 20"], whose
    first token coerces to NaN, gives NaN; NaN is rejected by neither guard,
    every comparison with it being false; and a pair with a NaN on one side
    whose other side passes its guard makes the whole result NaN. *)
Theorem calcPoints_NaN_propagates (hits : jsstring) :
  (exists n, calcPoints hits = Normal n)
  /\ Number (js "x") = NaN
  /\ calcPoints (js "x 20") = Normal NaN
  /\ (forall c, (NaN <? c)%num = false /\ (NaN >? c)%num = false)
  /\ multiplier_rejected NaN = false
  /\ sector_rejected NaN = false
  /\ (forall pre multiplier sector post,
        map Number (split hits) = pre ++ multiplier :: sector :: post ->
        Nat.Even (length pre) ->
        (multiplier = NaN /\ sector_rejected sector = false)
        \/ (sector = NaN /\ multiplier_rejected multiplier = false) ->
        calcPoints hits = Normal NaN).
Proof.
  split; [eexists; reflexivity|].
  split; [reflexivity|]. split; [vm_compute; reflexivity|].
  split; [intros c; split; [reflexivity | now destruct c as [|[]|]]|].
  split; [reflexivity|]. split; [reflexivity|].
  intros pre m s post H E G.
  rewrite calcPoints_score, H, score_app by exact E. simpl.
  assert (turn (score (of_Z 0) pre) m s = NaN) as ->;
    [|now rewrite score_NaN].
  unfold turn.
  destruct G as [[-> Gs] | [-> Gm]].
  - rewrite Gs. simpl. apply add_NaN_r.
  - rewrite Gm. simpl. rewrite mul_NaN_r. apply add_NaN_r.
Qed.

Lemma calcPoints_NaN_propagates_witness :
  calcPoints (js "3 20 2 y 1 5") = Normal NaN.
Proof.
  refine (proj2 (proj2 (proj2 (proj2 (proj2 (proj2
            (calcPoints_NaN_propagates (js "3 20 2 y 1 5")))))))
            [of_Z 3; of_Z 20] (of_Z 2) NaN [of_Z 1; of_Z 5] _ _ _).
  - reflexivity.
  - exists 1%nat. reflexivity.
  - right. split; reflexivity.
Defined.

(** ** Sign of a coerced token *)

Module SignFacts.
Import StringToNumber.

Lemma digit_nonneg (radix : Z) (c : code_unit) (v : Z) :
  digit radix c = Some v -> 0 <= v.
Proof.
  unfold digit.
  destruct (N.leb_spec 48 c), (N.leb_spec c 57), (N.leb_spec 97 c),
    (N.leb_spec c 102), (N.leb_spec 65 c), (N.leb_spec c 70); simpl;
    match goal with |- context [?x <? radix] => destruct (x <? radix) eqn:E end;
    intros [= <-]; try lia; apply Z.ltb_lt in E; lia.
Qed.

Lemma digits_nonneg (radix : Z) (s : jsstring) :
  Forall (fun d => 0 <= d) (fst (digits radix s)).
Proof.
  induction s as [|c rest IH]; simpl; [constructor|].
  destruct (digit radix c) as [v|] eqn:D; [|constructor].
  destruct (digits radix rest) as [ds tl]. simpl in *.
  constructor; [exact (digit_nonneg _ _ _ D) | exact IH].
Qed.

Lemma value_nonneg (radix : Z) (ds : list Z) :
  0 <= radix -> Forall (fun d => 0 <= d) ds -> 0 <= value radix ds.
Proof.
  intros R F. unfold value.
  assert (forall acc, 0 <= acc ->
            0 <= fold_left (fun acc d => acc * radix + d) ds acc) as K.
  { induction F as [|d ds Hd F IH]; intros acc Hacc.
    - exact Hacc.
    - simpl. apply IH. nia. }
  apply K. lia.
Qed.

Lemma scale_nonneg (m e : Z) : 0 <= m -> (0 <= scale m e)%Q.
Proof.
  intros M. unfold scale. destruct (0 <=? e) eqn:E.
  - unfold Qle. simpl. apply Z.leb_le in E.
    pose proof (Z.pow_nonneg 10 e). nia.
  - rewrite Qred_correct. unfold Qle. simpl. lia.
Qed.

Lemma fraction_nonneg (s : jsstring) :
  Forall (fun d => 0 <= d) (fst (fraction s)).
Proof.
  destruct s as [|c rest]; simpl; [constructor|].
  destruct (N.eqb c 46); [apply digits_nonneg | constructor].
Qed.

Lemma unsigned_decimal_nonneg (s : jsstring) (q : Q) :
  unsigned_decimal s = Some q -> (0 <= q)%Q.
Proof.
  unfold unsigned_decimal.
  pose proof (digits_nonneg 10 s) as Fi.
  destruct (digits 10 s) as [ip r1]. simpl in Fi.
  pose proof (fraction_nonneg r1) as Ff.
  destruct (fraction r1) as [fp r2]. simpl in Ff.
  destruct (is_nil ip && is_nil fp)%bool; [discriminate|].
  destruct (exponent r2) as [e|]; [|discriminate].
  intros [= <-]. apply scale_nonneg, value_nonneg; [lia|].
  apply Forall_app. now split.
Qed.

Lemma less_than_zero (q : Q) : (0 <= q)%Q -> (Fin q <? of_Z 0)%num = false.
Proof.
  unfold less_than, of_Z, Qle, Qcompare. simpl. intros H.
  destruct (Z.compare_spec (Qnum q * 1) 0); try reflexivity. lia.
Qed.

Lemma signed_positive (s : jsstring) :
  hd_error s <> Some hyphen -> fst (signed s) = false.
Proof.
  destruct s as [|c rest]; [reflexivity|]. simpl. intros H.
  destruct (N.eqb c 43); [reflexivity|].
  destruct (N.eqb_spec c hyphen) as [->|]; [now elim H | reflexivity].
Qed.

(** Without a leading hyphen a decimal literal is not below zero. *)
Lemma decimal_nonneg (s : jsstring) :
  hd_error s <> Some hyphen -> (decimal s <? of_Z 0)%num = false.
Proof.
  intros H. unfold decimal.
  pose proof (signed_positive s H) as P.
  destruct (signed s) as [negative body]. simpl in P. subst negative.
  destruct (jsstring_eqb body (js "Infinity")); [reflexivity|].
  destruct (unsigned_decimal body) as [q|] eqn:U; [|reflexivity].
  apply less_than_zero. exact (unsigned_decimal_nonneg _ _ U).
Qed.

Lemma radix_of_prefix_nonneg (p : code_unit) (r : Z) :
  radix_of_prefix p = Some r -> 0 <= r.
Proof.
  unfold radix_of_prefix.
  repeat match goal with
         | |- context [if ?b then _ else _] => destruct b
         end; intros [= <-]; lia.
Qed.

Lemma non_decimal_nonneg (s : jsstring) (z : Z) :
  non_decimal s = Some z -> 0 <= z.
Proof.
  unfold non_decimal.
  destruct s as [|zero [|p body]]; try discriminate.
  destruct (N.eqb zero 48); [|discriminate].
  destruct (radix_of_prefix p) as [r|] eqn:R; [|discriminate].
  pose proof (digits_nonneg r body) as F.
  destruct (digits r body) as [[|d ds] [|x tl]]; try discriminate.
  intros [= <-]. apply value_nonneg; [|exact F].
  exact (radix_of_prefix_nonneg _ _ R).
Qed.

Lemma drop_white_space_incl (s : jsstring) (c : code_unit) :
  In c (drop_white_space s) -> In c s.
Proof.
  induction s as [|x rest IH]; simpl; [tauto|].
  destruct (is_white_space x); [right; now apply IH | tauto].
Qed.

Lemma trim_incl (s : jsstring) (c : code_unit) : In c (trim s) -> In c s.
Proof.
  unfold trim. intros H. apply in_rev in H.
  apply drop_white_space_incl in H. apply in_rev in H.
  now apply drop_white_space_incl in H.
Qed.

(** A string without a hyphen does not coerce to a number below zero. *)
Lemma Number_nonneg (s : jsstring) :
  ~ In hyphen s -> (Number s <? of_Z 0)%num = false.
Proof.
  intros H. unfold Number.
  pose proof (trim_incl s) as T.
  destruct (trim s) as [|c t]; [reflexivity|].
  destruct (non_decimal (c :: t)) as [z|] eqn:ND.
  - rewrite less_than_Z. apply Z.ltb_ge. exact (non_decimal_nonneg _ _ ND).
  - apply decimal_nonneg. simpl. intros [= ->]. apply H, T. now left.
Qed.

Lemma no_separator_no_hyphen (tok : jsstring) :
  no_separator tok = true -> ~ In hyphen tok.
Proof.
  unfold no_separator. rewrite forallb_forall. intros F Hin.
  specialize (F _ Hin). discriminate F.
Qed.

End SignFacts.

(** C10: no token holds a hyphen, so no token coerces to a number below
    zero, and the test [sector < 0] is false for every array element the
    loop may read (also past the end, where the element is NaN). *)
Theorem negative_sector_guard_never_true (hits : jsstring) :
  (forall tok, In tok (split hits) ->
     ~ In hyphen tok /\ (Number tok <? of_Z 0)%num = false)
  /\ (forall i, (index (map Number (split hits)) i <? of_Z 0)%num = false).
Proof.
  assert (forall tok, In tok (split hits) -> ~ In hyphen tok) as NH.
  { intros tok Hin. apply SignFacts.no_separator_no_hyphen.
    pose proof (split_no_separator hits) as F.
    rewrite Forall_forall in F. now apply F. }
  split.
  - intros tok Hin. split; [now apply NH|].
    now apply SignFacts.Number_nonneg, NH.
  - intros i. unfold index.
    destruct (Nat.lt_ge_cases i (length (map Number (split hits)))) as [L|L].
    + rewrite (nth_indep _ NaN (Number []) L), map_nth.
      apply SignFacts.Number_nonneg, NH, nth_In.
      now rewrite length_map in L.
    + now rewrite nth_overflow.
Qed.

Lemma negative_sector_guard_never_true_witness :
  ~ In hyphen (js "20") /\ (Number (js "20") <? of_Z 0)%num = false.
Proof.
  apply (proj1 (negative_sector_guard_never_true (js "3-20 1 -5")) (js "20")).
  right. left. reflexivity.
Defined.


(** ** Checkout Advisor *)

(** What the body does, for any argument and any console. *)
Lemma possibleCheckout_stub (x : number) (out : console) :
  possibleCheckout x out = (out ++ [x], Throw (Error "not implemented yet")).
Proof. reflexivity. Qed.

(** C1: where the rule answers ["No Checkout"] (441, odd, as the test suite
    also expects) and where it answers ["Double 2"] (4, twice 2), the call
    throws the error "not implemented yet" and returns neither string. *)
Theorem possibleCheckout_rule_not_implemented :
  checkout_rule 441 = js "No Checkout"
  /\ snd (possibleCheckout (of_Z 441) []) = Throw (Error "not implemented yet")
  /\ snd (possibleCheckout (of_Z 441) []) <> Normal (checkout_rule 441)
  /\ checkout_rule 4 = js "Double 2"
  /\ snd (possibleCheckout (of_Z 4) []) = Throw (Error "not implemented yet")
  /\ snd (possibleCheckout (of_Z 4) []) <> Normal (checkout_rule 4).
Proof. repeat split; try reflexivity; discriminate. Qed.

(** The halving rule applied to the argument itself also disagrees with the
    expectations of the test suite, which wants ["Double 12"] at 477 and
    ["Double 25"] at 451; the four expectations are those of the rule
    applied to what is left of 501. *)
Remark checkout_rule_against_tests :
  checkout_rule 477 = js "No Checkout"
  /\ checkout_rule 451 = js "No Checkout"
  /\ map (fun x => checkout_rule (501 - x)) [477; 451; 480; 441]
     = map js ["Double 12"; "Double 25"; "No Checkout"; "No Checkout"]%string.
Proof. repeat split. Qed.

(** C2: at 480, where the test suite expects ["No Checkout"], the call
    throws; it yields no result. *)
Theorem possibleCheckout_480_throws :
  snd (possibleCheckout (of_Z 480) []) = Throw (Error "not implemented yet")
  /\ snd (possibleCheckout (of_Z 480) []) <> Normal (js "No Checkout").
Proof. split; [reflexivity | discriminate]. Qed.

(** C5: at the four inputs of the test suite the call throws instead of
    returning the expected strings. *)
Theorem possibleCheckout_reference_vectors_throw :
  let result x := snd (possibleCheckout (of_Z x) []) in
  result 477 <> Normal (js "Double 12")
  /\ result 451 <> Normal (js "Double 25")
  /\ result 480 <> Normal (js "No Checkout")
  /\ result 441 <> Normal (js "No Checkout")
  /\ Forall (fun x => result x = Throw (Error "not implemented yet"))
       [477; 451; 480; 441].
Proof.
  cbv zeta. repeat split; try discriminate. repeat constructor.
Qed.

(** * Further properties *)

(** ** Score Parser, continued *)

Lemma split_same_up_to_separators (a b : jsstring) :
  same_up_to_separators a b -> split a = split b.
Proof.
  induction 1 as [|x y a b Hxy _ IH]; [reflexivity|].
  simpl. rewrite IH.
  destruct Hxy as [-> | [Hx Hy]]; [reflexivity|]. now rewrite Hx, Hy.
Qed.

(** X1: which separator stands at a cut does not matter: two inputs that
    differ only by replacing separators (space, tab, hyphen, ...) with other
    separators score the same. *)
Theorem calcPoints_separators_interchangeable (a b : jsstring) :
  same_up_to_separators a b -> calcPoints a = calcPoints b.
Proof.
  intros H. unfold calcPoints. now rewrite (split_same_up_to_separators a b H).
Qed.

Lemma not_rejected_multiplier (m : number) :
  multiplier_rejected m = false ->
  m = NaN \/ exists q, m = Fin q /\ (1 <= q)%Q /\ (q <= 3)%Q.
Proof.
  unfold multiplier_rejected, greater_than, less_than, of_Z.
  destruct m as [|[]|q]; simpl; try discriminate; [now left|].
  intros H. apply orb_false_elim in H as [H1 H3]. right. exists q.
  split; [reflexivity|]. split.
  - destruct (Qcompare q (1 # 1)) eqn:C; try discriminate.
    + apply Qeq_alt in C. rewrite C. apply Qle_refl.
    + apply Qgt_alt in C. apply Qlt_le_weak. exact C.
  - destruct (Qcompare (3 # 1) q) eqn:C; try discriminate.
    + apply Qeq_alt in C. rewrite <- C. apply Qle_refl.
    + apply Qgt_alt in C. apply Qlt_le_weak. exact C.
Qed.

Lemma not_rejected_sector (s : number) :
  sector_rejected s = false ->
  s = NaN \/ exists q, s = Fin q /\ (0 <= q)%Q /\ (q <= 25)%Q.
Proof.
  unfold sector_rejected, greater_than, less_than, of_Z.
  destruct s as [|[]|q]; simpl; try discriminate; [now left|].
  intros H. apply orb_false_elim in H as [H1 H3]. right. exists q.
  split; [reflexivity|]. split.
  - destruct (Qcompare q (0 # 1)) eqn:C; try discriminate.
    + apply Qeq_alt in C. rewrite C. apply Qle_refl.
    + apply Qgt_alt in C. apply Qlt_le_weak. exact C.
  - destruct (Qcompare (25 # 1) q) eqn:C; try discriminate.
    + apply Qeq_alt in C. rewrite <- C. apply Qle_refl.
    + apply Qgt_alt in C. apply Qlt_le_weak. exact C.
Qed.

Lemma turn_within (bound : Z) (p m s : number) :
  NaN_or_within bound p -> NaN_or_within (bound + 75) (turn p m s).
Proof.
  intros Hp.
  assert (NaN_or_within (bound + 75) p) as Hp'.
  { destruct Hp as [-> | [q [-> [H0 Hb]]]]; [now left|].
    right. exists q. repeat split; trivial.
    rewrite inject_Z_plus. change (inject_Z 75) with 75%Q. lra. }
  unfold turn.
  destruct (multiplier_rejected m) eqn:Em; [exact Hp'|].
  destruct (sector_rejected s) eqn:Es; [exact Hp'|].
  destruct (not_rejected_multiplier m Em) as [-> | [qm [-> [Hm1 Hm3]]]];
    [left; now destruct p|].
  destruct (not_rejected_sector s Es) as [-> | [qs [-> [Hs0 Hs25]]]];
    [left; now destruct p|].
  destruct Hp as [-> | [q [-> [H0 Hb]]]]; [now left|].
  right. exists (Qred (q + Qred (qm * qs))). split; [reflexivity|].
  rewrite !Qred_correct, inject_Z_plus. change (inject_Z 75) with 75%Q.
  split; nra.
Qed.

Lemma score_within (rest : list number) (bound : Z) (p : number) :
  NaN_or_within bound p ->
  NaN_or_within (bound + 75 * Z.of_nat (Nat.div2 (length rest))) (score p rest).
Proof.
  revert bound p.
  induction rest as [|x|m s rest IH] using list_ind2; intros bound p Hp.
  - simpl. now rewrite Z.add_0_r.
  - simpl. now rewrite Z.add_0_r.
  - cbn [score length Nat.div2].
    replace (bound + 75 * Z.of_nat (S (Nat.div2 (length rest))))
      with (bound + 75 + 75 * Z.of_nat (Nat.div2 (length rest))) by lia.
    apply IH, turn_within, Hp.
Qed.

(** X2: on every string [calcPoints] returns NaN or a finite value between
    0 and 75 times the number of complete pairs; it never returns a negative
    value or an infinity. *)
Theorem calcPoints_NaN_or_bounded (hits : jsstring) :
  exists points, calcPoints hits = Normal points
    /\ NaN_or_within (75 * Z.of_nat (Nat.div2 (length (split hits)))) points.
Proof.
  eexists. split; [apply calcPoints_score|].
  rewrite <- (length_map Number).
  apply (score_within _ 0). right. exists 0%Q.
  split; [reflexivity | split; apply Qle_refl].
Qed.

(** X3: scores add up: when the first input has an even number of tokens
    and all tokens are integers, joining two inputs with a separator gives
    the sum of their scores. *)
Theorem calcPoints_additive (hits1 hits2 : jsstring) (sep : code_unit)
    (zs1 zs2 : list Z) :
  is_separator sep = true ->
  map Number (split hits1) = map of_Z zs1 ->
  map Number (split hits2) = map of_Z zs2 ->
  Nat.Even (length zs1) ->
  exists a b,
    calcPoints hits1 = Normal (of_Z a)
    /\ calcPoints hits2 = Normal (of_Z b)
    /\ calcPoints (hits1 ++ sep :: hits2) = Normal (of_Z (a + b)).
Proof.
  intros Hsep H1 H2 E. exists (pair_sum zs1), (pair_sum zs2).
  rewrite !calcPoints_score, split_app, map_app, H1, H2 by exact Hsep.
  rewrite <- map_app, !score_Z, pair_sum_app by exact E.
  repeat split.
Qed.

Lemma turn_NaN_inv (p m s : number) :
  turn p m s = NaN -> p = NaN \/ m = NaN \/ s = NaN.
Proof.
  unfold turn.
  destruct (multiplier_rejected m) eqn:Em; [now left|].
  destruct (sector_rejected s) eqn:Es; [now left|].
  destruct (not_rejected_multiplier m Em) as [-> | [qm [-> _]]]; [tauto|].
  destruct (not_rejected_sector s Es) as [-> | [qs [-> _]]]; [tauto|].
  destruct p as [|b|q]; [tauto | discriminate | discriminate].
Qed.

Lemma score_NaN_inv (rest : list number) (p : number) :
  score p rest = NaN -> p = NaN \/ In NaN rest.
Proof.
  revert p. induction rest as [|x|m s rest IH] using list_ind2; intros p H;
    try (now left).
  cbn [score] in H. destruct (IH _ H) as [T | I].
  - destruct (turn_NaN_inv _ _ _ T) as [-> | [-> | ->]]; simpl; tauto.
  - right. simpl. tauto.
Qed.

(** X4: the result is NaN only if some token of the input coerces to NaN. *)
Theorem calcPoints_NaN_only_from_token (hits : jsstring) :
  calcPoints hits = Normal NaN ->
  exists tok, In tok (split hits) /\ Number tok = NaN.
Proof.
  rewrite calcPoints_score. intros [= H].
  destruct (score_NaN_inv _ _ H) as [H0 | I]; [discriminate|].
  apply in_map_iff in I as [tok [E I]]. now exists tok.
Qed.

(** X5: two separators in a row leave an empty token, which is read as the
    integer 0 and takes a place in the pairing: the tokens after it are
    paired one place later. *)
Theorem calcPoints_empty_token (a b : jsstring) (s1 s2 : code_unit)
    (zs_a zs_b : list Z) :
  is_separator s1 = true -> is_separator s2 = true ->
  map Number (split a) = map of_Z zs_a ->
  map Number (split b) = map of_Z zs_b ->
  map Number (split (a ++ s1 :: s2 :: b)) = map of_Z (zs_a ++ 0 :: zs_b)
  /\ calcPoints (a ++ s1 :: s2 :: b)
     = Normal (of_Z (pair_sum (zs_a ++ 0 :: zs_b))).
Proof.
  intros H1 H2 Ha Hb.
  assert (map Number (split (a ++ s1 :: s2 :: b)) = map of_Z (zs_a ++ 0 :: zs_b))
    as T.
  { rewrite split_app by exact H1. cbn [split]. rewrite H2.
    rewrite !map_app, Ha. cbn [map]. now rewrite Hb. }
  split; [exact T|].
  rewrite calcPoints_score, T, score_Z. reflexivity.
Qed.

Lemma calcPoints_empty_token_witness :
  calcPoints (js "3 20  1 17") = Normal (of_Z 60).
Proof.
  apply (proj2 (calcPoints_empty_token (js "3 20") (js "1 17") 32%N 32%N
                  [3; 20] [1; 17] eq_refl eq_refl eq_refl eq_refl)).
Defined.

Lemma calcPoints_separators_interchangeable_witness :
  calcPoints (js "3-20-1-17") = calcPoints (js "3 20 1 17").
Proof.
  apply calcPoints_separators_interchangeable.
  repeat (constructor; [first [left; reflexivity | right; split; reflexivity]|]).
  constructor.
Defined.

Lemma calcPoints_additive_witness :
  exists a b,
    calcPoints (js "3 20 1 17") = Normal (of_Z a)
    /\ calcPoints (js "2 4") = Normal (of_Z b)
    /\ calcPoints (js "3 20 1 17" ++ 45%N :: js "2 4") = Normal (of_Z (a + b)).
Proof.
  apply (calcPoints_additive (js "3 20 1 17") (js "2 4") 45%N
           [3; 20; 1; 17] [2; 4]); try reflexivity.
  exists 2%nat. reflexivity.
Defined.

Lemma calcPoints_NaN_only_from_token_witness :
  exists tok, In tok (split (js "x 20")) /\ Number tok = NaN.
Proof.
  apply (calcPoints_NaN_only_from_token (js "x 20")). vm_compute. reflexivity.
Defined.

(** ** isValid *)

Lemma strict_equal_Z (a b : Z) : (of_Z a === of_Z b)%num = (a =? b).
Proof.
  unfold strict_equal, of_Z, Qeq_bool. simpl. rewrite !Z.mul_1_r.
  unfold Z.eqb. now destruct (a ?= b).
Qed.

Lemma remainder_Z (a : Z) (b : positive) :
  (of_Z a mod of_Z (Zpos b))%num = of_Z (Z.rem a (Zpos b)).
Proof.
  unfold remainder, of_Z.
  assert (Qeq_bool (Zpos b # 1) 0 = false) as -> by reflexivity.
  f_equal.
  assert (truncate ((a # 1) / (Zpos b # 1)) = Z.quot a (Zpos b)) as ->.
  { unfold truncate, Qdiv, Qinv, Qmult. simpl. now rewrite Z.mul_1_r. }
  unfold inject_Z, Qminus, Qplus, Qopp, Qmult. cbn [Qnum Qden].
  change (1 * 1)%positive with 1%positive.
  replace (a * 1 + - (Zpos b * (a ÷ Zpos b)) * 1) with (Z.rem a (Zpos b)).
  - apply Qred_Z.
  - pose proof (Z.quot_rem' a (Zpos b)). lia.
Qed.

Lemma is_digit_cases (c : code_unit) :
  is_digit c = true -> In c [48; 49; 50; 51; 52; 53; 54; 55; 56; 57]%N.
Proof.
  unfold is_digit. intros H. apply andb_prop in H as [L U].
  apply N.leb_le in L, U. simpl.
  assert (c = 48 \/ c = 49 \/ c = 50 \/ c = 51 \/ c = 52 \/ c = 53 \/ c = 54
          \/ c = 55 \/ c = 56 \/ c = 57)%N as K by lia.
  intuition auto.
Qed.

Lemma Number_digit (c : code_unit) :
  is_digit c = true -> Number [c] = of_Z (digit_value c).
Proof.
  intros H. apply is_digit_cases in H. simpl in H.
  repeat (destruct H as [<- | H]; [reflexivity|]). contradiction.
Qed.

Lemma digit_not_separator (c : code_unit) :
  is_digit c = true -> is_separator c = false.
Proof.
  intros H. apply is_digit_cases in H. simpl in H.
  repeat (destruct H as [<- | H]; [reflexivity|]). contradiction.
Qed.

Lemma digit_value_range (c : code_unit) :
  is_digit c = true -> 0 <= digit_value c <= 9.
Proof.
  unfold is_digit, digit_value. intros H. apply andb_prop in H as [L U].
  apply N.leb_le in L, U. lia.
Qed.

Lemma digit_value_inj (c c' : code_unit) :
  is_digit c = true -> is_digit c' = true ->
  digit_value c = digit_value c' -> c = c'.
Proof.
  unfold is_digit, digit_value. intros H H' E.
  apply andb_prop in H as [L _]. apply N.leb_le in L. lia.
Qed.

Lemma weight_Z (i : nat) :
  (if (of_Z (Z.of_nat i) mod of_Z 2 === of_Z 0)%num then of_Z 1 else of_Z 3)
  = of_Z (if Nat.even i then 1 else 3).
Proof.
  rewrite (remainder_Z _ 2), strict_equal_Z.
  rewrite Z.rem_mod_nonneg by lia.
  destruct (Nat.even i) eqn:E.
  - apply Nat.even_spec in E. destruct E as [k ->].
    replace (Z.of_nat (2 * k)) with (Z.of_nat k * 2) by lia.
    now rewrite Z.mod_mul.
  - assert (Nat.odd i = true) as O by (now rewrite <- Nat.negb_even, E).
    apply Nat.odd_spec in O. destruct O as [k ->].
    replace (Z.of_nat (2 * k + 1)) with (1 + Z.of_nat k * 2) by lia.
    now rewrite Z.mod_add.
Qed.

Lemma weigh_Z (acc d : Z) (i : nat) :
  weigh (of_Z acc) (of_Z d) i = of_Z (acc + d * (if Nat.even i then 1 else 3)).
Proof. unfold weigh. now rewrite weight_Z, mul_Z, add_Z. Qed.

Lemma reduce_weigh_Z (ds : list Z) (i : nat) (acc : Z) :
  reduce_from weigh i (map of_Z ds) (of_Z acc)
  = of_Z (acc + weighted_sum i ds).
Proof.
  revert i acc. induction ds as [|d ds IH]; intros i acc; cbn [map reduce_from].
  - now rewrite Z.add_0_r.
  - rewrite weigh_Z, IH. cbn [weighted_sum]. f_equal. lia.
Qed.

Lemma Number_digits (digits : jsstring) :
  forallb is_digit digits = true ->
  map Number (split_units digits) = map of_Z (map digit_value digits).
Proof.
  induction digits as [|c rest IH]; simpl; [reflexivity|].
  intros H. apply andb_prop in H as [Hc Hrest].
  now rewrite IH, (Number_digit c Hc).
Qed.

Lemma weighted_sum_nonneg (ds : list Z) (i : nat) :
  Forall (fun d => 0 <= d) ds -> 0 <= weighted_sum i ds.
Proof.
  intros F. revert i. induction F as [|d ds Hd F IH]; intros i; simpl; [lia|].
  specialize (IH (S i)). destruct (Nat.even i); lia.
Qed.

Lemma isValid_checksum (isbn : jsstring) :
  isValid isbn = checksum_ok (remove_separators isbn).
Proof.
  unfold isValid, checksum_ok.
  destruct (thirteen_digits (remove_separators isbn)) eqn:T; [|reflexivity].
  cbn [negb andb].
  apply andb_prop in T as [_ D].
  unfold reduce. rewrite (Number_digits _ D), reduce_weigh_Z.
  rewrite (remainder_Z _ 10), strict_equal_Z, Z.add_0_l.
  rewrite Z.rem_mod_nonneg; [reflexivity | | lia].
  apply weighted_sum_nonneg.
  rewrite forallb_forall in D. apply Forall_forall. intros d Hd.
  apply in_map_iff in Hd as [c [<- Hc]]. apply digit_value_range. now apply D.
Qed.

Lemma weighted_sum_app (l1 l2 : list Z) (i : nat) :
  weighted_sum i (l1 ++ l2)
  = weighted_sum i l1 + weighted_sum (i + length l1) l2.
Proof.
  revert i. induction l1 as [|d l1 IH]; intros i; simpl.
  - now rewrite Nat.add_0_r.
  - rewrite IH. replace (S i + length l1)%nat with (i + S (length l1))%nat by lia.
    lia.
Qed.

Lemma remove_separators_app (a b : jsstring) :
  remove_separators (a ++ b) = remove_separators a ++ remove_separators b.
Proof. apply filter_app. Qed.

Lemma remove_separators_cons (c : code_unit) (rest : jsstring) :
  remove_separators (c :: rest)
  = if is_separator c then remove_separators rest
    else c :: remove_separators rest.
Proof. unfold remove_separators. simpl. now destruct (is_separator c). Qed.

Lemma remove_separators_digit (c : code_unit) (rest : jsstring) :
  is_digit c = true ->
  remove_separators (c :: rest) = c :: remove_separators rest.
Proof.
  intros H. unfold remove_separators. simpl.
  now rewrite (digit_not_separator c H).
Qed.

Lemma thirteen_digits_spec (digits : jsstring) :
  thirteen_digits digits = true <->
  length digits = 13%nat /\ forallb is_digit digits = true.
Proof.
  unfold thirteen_digits. rewrite andb_true_iff, Nat.eqb_eq. reflexivity.
Qed.

Lemma checksum_ok_spec (digits : jsstring) :
  checksum_ok digits = true <->
  length digits = 13%nat /\ forallb is_digit digits = true
  /\ weighted_sum 0 (map digit_value digits) mod 10 = 0.
Proof.
  unfold checksum_ok.
  rewrite andb_true_iff, thirteen_digits_spec, Z.eqb_eq. tauto.
Qed.

Lemma isValid_iff_checksum_aux (isbn : jsstring) :
  isValid isbn = true <->
  length (remove_separators isbn) = 13%nat
  /\ forallb is_digit (remove_separators isbn) = true
  /\ weighted_sum 0 (map digit_value (remove_separators isbn)) mod 10 = 0.
Proof. rewrite isValid_checksum. apply checksum_ok_spec. Qed.

Lemma weight_cases (i : nat) :
  (if Nat.even i then 1 else 3) = 1 \/ (if Nat.even i then 1 else 3) = 3.
Proof. destruct (Nat.even i); auto. Qed.

(** X8: replacing one digit of a valid ISBN by any other character makes it
    invalid. *)
Theorem isValid_detects_replaced_digit (pre post : jsstring) (c c' : code_unit) :
  is_digit c = true -> c' <> c ->
  isValid (pre ++ c :: post) = true ->
  isValid (pre ++ c' :: post) = false.
Proof.
  intros Hc Hne V.
  rewrite isValid_checksum in *.
  rewrite remove_separators_app in *.
  rewrite (remove_separators_digit c post Hc) in V.
  apply checksum_ok_spec in V as [L [D S]].
  apply not_true_is_false. intros V'.
  apply checksum_ok_spec in V' as [L' [D' S']].
  rewrite remove_separators_cons in L', D', S'.
  destruct (is_separator c') eqn:Sep.
  - rewrite length_app in L, L'. simpl in L. lia.
  - rewrite forallb_app in D, D'. simpl in D, D'.
    apply andb_prop in D as [_ D]. apply andb_prop in D as [_ D].
    apply andb_prop in D' as [_ D']. apply andb_prop in D' as [Hc' _].
    rewrite map_app, weighted_sum_app in S, S'. simpl in S, S'.
    pose proof (digit_value_range c Hc) as R.
    pose proof (digit_value_range c' Hc') as R'.
    assert (digit_value c' <> digit_value c) as Hd.
    { intros E. apply Hne. now apply digit_value_inj. }
    rewrite !length_map in S, S'.
    destruct (weight_cases (length (remove_separators pre))) as [W | W];
      rewrite W in S, S'; Z.div_mod_to_equations; lia.
Qed.

(** X7: twelve digits (with any separators among them) have exactly one
    final character that makes the ISBN valid, and it is a digit. *)
Theorem isValid_unique_check_digit (body : jsstring) :
  length (remove_separators body) = 12%nat ->
  forallb is_digit (remove_separators body) = true ->
  exists c, is_digit c = true
    /\ isValid (body ++ [c]) = true
    /\ forall c', isValid (body ++ [c']) = true -> c' = c.
Proof.
  intros L D.
  set (S := weighted_sum 0 (map digit_value (remove_separators body))).
  assert (forall c', is_digit c' = true ->
            (isValid (body ++ [c']) = true <-> (S + digit_value c') mod 10 = 0))
    as K.
  { intros c' Hc'. rewrite isValid_iff_checksum_aux, remove_separators_app.
    rewrite (remove_separators_digit c' [] Hc'). cbn [remove_separators filter].
    rewrite length_app, forallb_app, map_app, weighted_sum_app, length_map, L, D.
    cbn [length forallb map weighted_sum Nat.add Nat.even andb]. rewrite Hc'.
    fold S. rewrite Z.mul_1_r, Z.add_0_r. intuition. }
  set (d := (- S) mod 10).
  assert (0 <= d <= 9) as Rd by (subst d; Z.div_mod_to_equations; lia).
  exists (Z.to_N (48 + d)).
  assert (is_digit (Z.to_N (48 + d)) = true) as Hc.
  { unfold is_digit. apply andb_true_intro. split; apply N.leb_le; lia. }
  assert (digit_value (Z.to_N (48 + d)) = d) as Vd by (unfold digit_value; lia).
  split; [exact Hc|]. split.
  - apply (K _ Hc). rewrite Vd. subst d. Z.div_mod_to_equations; lia.
  - intros c' V.
    assert (is_digit c' = true) as Hc'.
    { apply isValid_iff_checksum_aux in V as [L' [D' _]].
      rewrite remove_separators_app, (remove_separators_cons c' []) in L', D'.
      destruct (is_separator c').
      - rewrite length_app in L'. simpl in L'. lia.
      - rewrite forallb_app in D'. simpl in D'.
        apply andb_prop in D' as [_ D']. now apply andb_prop in D' as [D' _]. }
    apply (K _ Hc') in V. apply digit_value_inj; trivial.
    pose proof (digit_value_range c' Hc'). rewrite Vd.
    subst d. Z.div_mod_to_equations; lia.
Qed.

(** X9: swapping two neighbouring digits of a valid ISBN keeps it valid
    exactly when the two digits are equal or differ by 5; every other swap
    is detected. *)
Theorem isValid_transposition (pre post : jsstring) (c1 c2 : code_unit) :
  is_digit c1 = true -> is_digit c2 = true ->
  isValid (pre ++ c1 :: c2 :: post) = true ->
  (isValid (pre ++ c2 :: c1 :: post) = true
   <-> c1 = c2 \/ Z.abs (digit_value c1 - digit_value c2) = 5).
Proof.
  intros H1 H2 V.
  rewrite isValid_iff_checksum_aux in *.
  rewrite remove_separators_app in *.
  rewrite (remove_separators_digit c1 _ H1), (remove_separators_digit c2 _ H2) in V.
  rewrite (remove_separators_digit c2 _ H2), (remove_separators_digit c1 _ H1).
  destruct V as [L [D S]].
  rewrite length_app in *. rewrite forallb_app in *.
  rewrite map_app, weighted_sum_app, length_map in *.
  cbn [length forallb map weighted_sum] in *.
  pose proof (digit_value_range c1 H1) as R1.
  pose proof (digit_value_range c2 H2) as R2.
  replace (forallb is_digit (remove_separators pre) &&
           (is_digit c2 && (is_digit c1 && forallb is_digit (remove_separators post))))%bool
    with true
    by (apply andb_prop in D as [-> D]; apply andb_prop in D as [_ D];
        apply andb_prop in D as [_ ->]; now rewrite H1, H2).
  rewrite Nat.even_succ, <- Nat.negb_even in *.
  assert (c1 = c2 <-> digit_value c1 = digit_value c2) as E.
  { split; [now intros -> | now apply digit_value_inj]. }
  rewrite E.
  destruct (Nat.even (0 + length (remove_separators pre))); cbn [negb] in *;
    (split; [intros [_ [_ S']] | intros C; split; [exact L | split; [reflexivity|]]]);
    Z.div_mod_to_equations; lia.
Qed.

(** X6: [isValid] accepts exactly the strings that, once white space and
    hyphens are dropped, are 13 ASCII digits whose sum with weights
    1, 3, 1, 3, ... is a multiple of 10. *)
Theorem isValid_iff_checksum (isbn : jsstring) :
  isValid isbn = true <->
  length (remove_separators isbn) = 13%nat
  /\ forallb is_digit (remove_separators isbn) = true
  /\ weighted_sum 0 (map digit_value (remove_separators isbn)) mod 10 = 0.
Proof. apply isValid_iff_checksum_aux. Qed.

Lemma isValid_unique_check_digit_witness :
  exists c, is_digit c = true
    /\ isValid (js "978-3-16-148410-" ++ [c]) = true
    /\ forall c', isValid (js "978-3-16-148410-" ++ [c']) = true -> c' = c.
Proof.
  apply (isValid_unique_check_digit (js "978-3-16-148410-")); reflexivity.
Defined.

Lemma isValid_detects_replaced_digit_witness :
  isValid (js "978-3-16-1" ++ 57%N :: js "8410-0") = false.
Proof.
  apply (isValid_detects_replaced_digit (js "978-3-16-1") (js "8410-0") 52%N 57%N).
  - reflexivity.
  - discriminate.
  - reflexivity.
Defined.

Lemma isValid_transposition_witness :
  isValid (js "9783" ++ 49%N :: 54%N :: js "6148410") = true
  /\ isValid (js "9783" ++ 54%N :: 49%N :: js "6148410") = true.
Proof.
  assert (isValid (js "9783" ++ 49%N :: 54%N :: js "6148410") = true) as V
    by reflexivity.
  split; [exact V|].
  apply (isValid_transposition (js "9783") (js "6148410") 49%N 54%N eq_refl eq_refl V).
  right. reflexivity.
Defined.

(** ** play *)

Lemma jsstring_eqb_eq (a b : jsstring) : jsstring_eqb a b = true <-> a = b.
Proof.
  revert b. induction a as [|x a IH]; intros [|y b]; simpl;
    try (split; [discriminate | discriminate]); [tauto|].
  rewrite andb_true_iff, N.eqb_eq, IH. split; [intros [-> ->] | intros [= -> ->]]; auto.
Qed.

Lemma jsstring_eqb_refl (a : jsstring) : jsstring_eqb a a = true.
Proof. now apply jsstring_eqb_eq. Qed.

Lemma includes_validMoves (m : jsstring) :
  includes validMoves m = true <->
  m = js "rock" \/ m = js "paper" \/ m = js "scissors".
Proof.
  unfold includes, validMoves. cbn [existsb].
  rewrite !orb_true_iff, !jsstring_eqb_eq. intuition discriminate.
Qed.


Lemma play_invalid_first (lower : jsstring -> jsstring) (player1 player2 : jsstring) :
  includes validMoves (normalize lower player1) = false ->
  play lower player1 player2 = Throws (invalid_move player1).
Proof. intros H. unfold play. now rewrite H. Qed.

Lemma play_invalid_second (lower : jsstring -> jsstring) (player1 player2 : jsstring) :
  includes validMoves (normalize lower player1) = true ->
  includes validMoves (normalize lower player2) = false ->
  play lower player1 player2 = Throws (invalid_move player2).
Proof. intros H1 H2. unfold play. now rewrite H1, H2. Qed.

Lemma play_valid (lower : jsstring -> jsstring) (player1 player2 : jsstring) :
  includes validMoves (normalize lower player1) = true ->
  includes validMoves (normalize lower player2) = true ->
  play lower player1 player2
  = Returns (of_Z (verdict (normalize lower player1) (normalize lower player2))).
Proof.
  intros H1 H2. unfold play, verdict. rewrite H1, H2. cbn [negb].
  destruct (jsstring_eqb _ _); [reflexivity|].
  destruct (property winMap _) as [beaten|]; [|reflexivity].
  now destruct (jsstring_eqb beaten _).
Qed.

Lemma Returns_of_Z_inj (a b : Z) :
  @Returns number (of_Z a) = Returns (of_Z b) <-> a = b.
Proof. split; [intros [= H]; exact H | now intros ->]. Qed.

Lemma verdict_swap (m1 m2 : jsstring) :
  includes validMoves m1 = true -> includes validMoves m2 = true ->
  verdict m2 m1 = (3 - verdict m1 m2) mod 3.
Proof.
  intros H1 H2. apply includes_validMoves in H1, H2.
  destruct H1 as [-> | [-> | ->]], H2 as [-> | [-> | ->]]; reflexivity.
Qed.

Lemma verdict_range (m1 m2 : jsstring) : 0 <= verdict m1 m2 <= 2.
Proof.
  unfold verdict. destruct (jsstring_eqb m1 m2); [lia|].
  destruct (property winMap m1) as [beaten|]; [|lia].
  destruct (jsstring_eqb beaten m2); lia.
Qed.

(** X11: swapping the players keeps a draw a draw and turns a win of
    player 1 into a win of player 2. *)
Theorem play_swap (lower : jsstring -> jsstring) (player1 player2 : jsstring) :
  (play lower player1 player2 = Returns (of_Z 0)
   <-> play lower player2 player1 = Returns (of_Z 0))
  /\ (play lower player1 player2 = Returns (of_Z 1)
      <-> play lower player2 player1 = Returns (of_Z 2)).
Proof.
  destruct (includes validMoves (normalize lower player1)) eqn:V1,
           (includes validMoves (normalize lower player2)) eqn:V2.
  - rewrite (play_valid lower player1 player2 V1 V2).
    rewrite (play_valid lower player2 player1 V2 V1).
    rewrite !Returns_of_Z_inj, (verdict_swap _ _ V1 V2).
    pose proof (verdict_range (normalize lower player1) (normalize lower player2)).
    split; split; intros E; Z.div_mod_to_equations; lia.
  - rewrite (play_invalid_second lower player1 player2 V1 V2).
    rewrite (play_invalid_first lower player2 player1 V2).
    split; split; discriminate.
  - rewrite (play_invalid_first lower player1 player2 V1).
    rewrite (play_invalid_second lower player2 player1 V2 V1).
    split; split; discriminate.
  - rewrite (play_invalid_first lower player1 player2 V1).
    rewrite (play_invalid_first lower player2 player1 V2).
    split; split; discriminate.
Qed.

(** X12: the result is 0 exactly when the first move is valid and both moves
    normalise to the same string. *)
Theorem play_draw (lower : jsstring -> jsstring) (player1 player2 : jsstring) :
  play lower player1 player2 = Returns (of_Z 0)
  <-> includes validMoves (normalize lower player1) = true
      /\ normalize lower player1 = normalize lower player2.
Proof.
  destruct (includes validMoves (normalize lower player1)) eqn:V1;
    [|rewrite (play_invalid_first lower _ _ V1); split;
      [discriminate | intros [? _]; discriminate]].
  destruct (includes validMoves (normalize lower player2)) eqn:V2.
  - rewrite (play_valid lower _ _ V1 V2), Returns_of_Z_inj.
    apply includes_validMoves in V1, V2.
    destruct V1 as [-> | [-> | ->]], V2 as [-> | [-> | ->]];
      split; try reflexivity; try discriminate; try (now split);
      intros [_ ?]; discriminate.
  - rewrite (play_invalid_second lower _ _ V1 V2).
    split; [discriminate|]. intros [_ E]. rewrite <- E, V1 in V2. discriminate.
Qed.

(** X10: [play] throws "Invalid move: " followed by the first player's
    move as given when that move is invalid, else the same for the second
    player's move; when both moves are valid it returns 0, 1 or 2. *)
Theorem play_result_or_error (lower : jsstring -> jsstring)
    (player1 player2 : jsstring) :
  (play lower player1 player2 = Throws (invalid_move player1)
   /\ includes validMoves (normalize lower player1) = false)
  \/ (play lower player1 player2 = Throws (invalid_move player2)
      /\ includes validMoves (normalize lower player1) = true
      /\ includes validMoves (normalize lower player2) = false)
  \/ (exists r, (r = 0 \/ r = 1 \/ r = 2)
        /\ play lower player1 player2 = Returns (of_Z r)
        /\ includes validMoves (normalize lower player1) = true
        /\ includes validMoves (normalize lower player2) = true).
Proof.
  destruct (includes validMoves (normalize lower player1)) eqn:V1;
    [|left; split; [now apply play_invalid_first | reflexivity]].
  right.
  destruct (includes validMoves (normalize lower player2)) eqn:V2;
    [|left; split; [now apply play_invalid_second | now split]].
  right. exists (verdict (normalize lower player1) (normalize lower player2)).
  pose proof (verdict_range (normalize lower player1) (normalize lower player2)).
  split; [lia|]. split; [now apply play_valid | now split].
Qed.

(** ** White space around a string *)

Lemma drop_white_space_app_l (ws s : jsstring) :
  forallb is_white_space ws = true ->
  StringToNumber.drop_white_space (ws ++ s) = StringToNumber.drop_white_space s.
Proof.
  induction ws as [|c ws IH]; simpl; [reflexivity|].
  intros H. apply andb_prop in H as [-> H]. now apply IH.
Qed.

Lemma drop_white_space_app_r (s ws : jsstring) :
  forallb is_white_space ws = true ->
  StringToNumber.drop_white_space (s ++ ws)
  = StringToNumber.drop_white_space s ++ ws
  \/ (StringToNumber.drop_white_space s = []
      /\ StringToNumber.drop_white_space (s ++ ws) = []).
Proof.
  intros H. induction s as [|c s IH]; simpl.
  - right. split; [reflexivity|].
    rewrite <- (app_nil_r ws). now rewrite drop_white_space_app_l.
  - destruct (is_white_space c); [exact IH | now left].
Qed.

Lemma forallb_rev {A} (f : A -> bool) (l : list A) :
  forallb f (rev l) = forallb f l.
Proof.
  induction l as [|x l IH]; simpl; [reflexivity|].
  rewrite forallb_app, IH. simpl. now rewrite andb_true_r, andb_comm.
Qed.

Lemma trim_padding (ws1 s ws2 : jsstring) :
  forallb is_white_space ws1 = true -> forallb is_white_space ws2 = true ->
  StringToNumber.trim (ws1 ++ s ++ ws2) = StringToNumber.trim s.
Proof.
  intros H1 H2. unfold StringToNumber.trim.
  rewrite drop_white_space_app_l by exact H1.
  destruct (drop_white_space_app_r s ws2 H2) as [-> | [E ->]].
  - rewrite rev_app_distr, drop_white_space_app_l; [reflexivity|].
    now rewrite forallb_rev.
  - now rewrite E.
Qed.

Lemma play_normalized (lower : jsstring -> jsstring)
    (a a' b b' : jsstring) (r : number) :
  normalize lower a = normalize lower a' ->
  normalize lower b = normalize lower b' ->
  play lower a b = Returns r -> play lower a' b' = Returns r.
Proof.
  intros Ea Eb. unfold play. rewrite <- Ea, <- Eb.
  destruct (includes validMoves (normalize lower a)); [|discriminate].
  destruct (includes validMoves (normalize lower b)); [|discriminate].
  trivial.
Qed.

(** X13: white space around the moves does not change the result of a call
    that returns. *)
Theorem play_ignores_padding (lower : jsstring -> jsstring)
    (player1 player2 ws1 ws2 ws3 ws4 : jsstring) (r : number) :
  forallb is_white_space (ws1 ++ ws2 ++ ws3 ++ ws4) = true ->
  play lower player1 player2 = Returns r ->
  play lower (ws1 ++ player1 ++ ws2) (ws3 ++ player2 ++ ws4) = Returns r.
Proof.
  rewrite !forallb_app, !andb_true_iff. intros [W1 [W2 [W3 W4]]].
  apply play_normalized; unfold normalize; now rewrite trim_padding.
Qed.


Lemma white_space_not_letter (c : code_unit) :
  is_white_space c = true -> (c < 65 \/ 122 < c)%N.
Proof.
  unfold is_white_space. cbn [existsb].
  rewrite !orb_true_iff, !andb_true_iff, !N.eqb_eq, !N.leb_le. lia.
Qed.

Lemma is_white_space_ascii_lower (c : code_unit) :
  is_white_space (ascii_lower c) = is_white_space c.
Proof.
  unfold ascii_lower.
  destruct (N.leb 65 c && N.leb c 90)%bool eqn:U; [|reflexivity].
  apply andb_prop in U as [L H]. apply N.leb_le in L, H.
  destruct (is_white_space c) eqn:W.
  - apply white_space_not_letter in W. lia.
  - destruct (is_white_space (c + 32)%N) eqn:W'; [|reflexivity].
    apply white_space_not_letter in W'. lia.
Qed.

Lemma drop_white_space_lower (s : jsstring) :
  StringToNumber.drop_white_space (map ascii_lower s)
  = map ascii_lower (StringToNumber.drop_white_space s).
Proof.
  induction s as [|c s IH]; simpl; [reflexivity|].
  rewrite is_white_space_ascii_lower. now destruct (is_white_space c).
Qed.

Lemma trim_lower (s : jsstring) :
  StringToNumber.trim (map ascii_lower s)
  = map ascii_lower (StringToNumber.trim s).
Proof.
  unfold StringToNumber.trim.
  now rewrite drop_white_space_lower, <- map_rev, drop_white_space_lower, map_rev.
Qed.

Lemma trim_ascii (s : jsstring) :
  forallb is_ascii s = true -> forallb is_ascii (StringToNumber.trim s) = true.
Proof.
  rewrite !forallb_forall. intros H c Hc. apply H.
  now apply SignFacts.trim_incl.
Qed.

Lemma normalize_ascii (lower : jsstring -> jsstring) (s : jsstring) :
  lowers_ascii lower -> forallb is_ascii s = true ->
  normalize lower s = StringToNumber.trim (map ascii_lower s).
Proof.
  intros H A. unfold normalize. rewrite (H _ (trim_ascii s A)).
  symmetry. apply trim_lower.
Qed.

(** X14: given that [toLowerCase] lowers ASCII letters and leaves other
    ASCII characters alone, the case of ASCII moves does not change the
    result of a call that returns. *)
Theorem play_ignores_ascii_case (lower : jsstring -> jsstring)
    (a a' b b' : jsstring) (r : number) :
  lowers_ascii lower ->
  forallb is_ascii (a ++ a' ++ b ++ b') = true ->
  map ascii_lower a = map ascii_lower a' ->
  map ascii_lower b = map ascii_lower b' ->
  play lower a b = Returns r -> play lower a' b' = Returns r.
Proof.
  intros H. rewrite !forallb_app, !andb_true_iff. intros [A [A' [B B']]] Ea Eb.
  apply play_normalized; rewrite !normalize_ascii by assumption; congruence.
Qed.

Lemma play_ignores_padding_witness :
  play (map ascii_lower) (js "  rock") (js "paper ") = Returns (of_Z 2).
Proof.
  apply (play_ignores_padding (map ascii_lower) (js "rock") (js "paper")
           (js "  ") [] [] (js " ")); reflexivity.
Defined.

Lemma lowers_ascii_map : lowers_ascii (map ascii_lower).
Proof. intros s _. reflexivity. Qed.

Lemma play_ignores_ascii_case_witness :
  play (map ascii_lower) (js "  Rock") (js "SCISSORS ") = Returns (of_Z 1).
Proof.
  apply (play_ignores_ascii_case (map ascii_lower)
           (js "  rock") (js "  Rock") (js "scissors ") (js "SCISSORS ")).
  - exact lowers_ascii_map.
  - reflexivity.
  - reflexivity.
  - reflexivity.
  - reflexivity.
Defined.

(** ** formatDuration *)

Lemma Math_round_Z (z : Z) : Math_round (of_Z z) = of_Z z.
Proof.
  unfold Math_round, of_Z. do 2 f_equal.
  unfold Qfloor, Qplus. cbn [Qnum Qden].
  change (Zpos (1 * 2)) with 2. Z.div_mod_to_equations. lia.
Qed.

Lemma floor_divide_Z (a : Z) (b : positive) :
  Math_floor (divide (of_Z a) (of_Z (Zpos b))) = of_Z (a / Zpos b).
Proof.
  unfold divide, of_Z.
  assert (Qeq_bool (Zpos b # 1) 0 = false) as -> by reflexivity.
  unfold Math_floor, of_Z. do 2 f_equal. rewrite Qred_correct.
  unfold Qdiv, Qinv, Qmult, Qfloor. cbn [Qnum Qden].
  now rewrite Z.mul_1_r, Pos.mul_1_l.
Qed.

Lemma truthy_Z (z : Z) : truthy (of_Z z) = negb (z =? 0).
Proof.
  unfold truthy, of_Z, Qeq_bool. cbn [Qnum Qden]. now rewrite Z.mul_1_r.
Qed.

Lemma to_string_Z (z : Z) : 0 <= z -> to_string (of_Z z) = decimal_digits z.
Proof.
  intros H. unfold to_string, of_Z, Qfloor. rewrite Z.div_1_r.
  destruct (Z.ltb_spec z 0); [lia | reflexivity].
Qed.

(** What [formatDuration] hands to the template literals is never a proper
    fraction. *)
Lemma printed_values_integral (seconds : number) :
  let totalSeconds := Math_round seconds in
  integral (Math_floor (divide totalSeconds (of_Z 3600)))
  /\ integral
       (Math_floor (divide (totalSeconds mod of_Z 3600)%num (of_Z 60)))
  /\ integral (totalSeconds mod of_Z 60)%num.
Proof.
  assert (forall x, integral (Math_floor x)) as F.
  { intros [| |q]; simpl; trivial. now exists (Qfloor q). }
  cbv zeta. split; [apply F | split; [apply F|]].
  destruct seconds as [| |q]; [exact I | exact I |].
  cbn [Math_round]. rewrite (remainder_Z _ 60). now eexists.
Qed.

Lemma app_cons_not_empty (x rest : jsstring) (c : code_unit) :
  jsstring_eqb (x ++ c :: rest) [] = false.
Proof. now destruct x. Qed.

Lemma formatDuration_Z (n : Z) :
  0 <= n ->
  formatDuration (of_Z n)
  = Returns (hms (n / 3600) (n mod 3600 / 60) (n mod 60)).
Proof.
  intros H. unfold formatDuration.
  rewrite less_than_Z. destruct (Z.ltb_spec n 0) as [|_]; [lia|].
  rewrite Math_round_Z, !(remainder_Z n), !floor_divide_Z.
  rewrite !Z.rem_mod_nonneg by lia.
  rewrite !truthy_Z, !to_string_Z
    by (try apply Z.div_pos; try apply Z.mod_pos_bound; lia).
  f_equal. unfold hms, component. cbn [app].
  destruct (n / 3600 =? 0), (n mod 3600 / 60 =? 0), (n mod 60 =? 0);
    cbn [negb andb orb app jsstring_eqb]; rewrite <- ?app_assoc;
    try reflexivity;
    change (js "h") with [104%N]; change (js "m") with [109%N];
    cbn [app]; rewrite app_cons_not_empty; now rewrite ?app_nil_r.
Qed.

(** X15: for a whole number of seconds below 2^53 the text is that of hours,
    minutes below 60 and seconds below 60 that add up to the input, zero
    parts left out, and "0s" for zero. *)
Theorem formatDuration_hours_minutes_seconds (n : Z) :
  0 <= n < 2 ^ 53 ->
  exists h m s,
    n = 3600 * h + 60 * m + s
    /\ 0 <= h /\ 0 <= m < 60 /\ 0 <= s < 60
    /\ formatDuration (of_Z n) = Returns (hms h m s).
Proof.
  intros [H _]. exists (n / 3600), (n mod 3600 / 60), (n mod 60).
  split; [Z.div_mod_to_equations; lia|].
  split; [Z.div_mod_to_equations; lia|].
  split; [Z.div_mod_to_equations; lia|].
  split; [Z.div_mod_to_equations; lia|].
  now apply formatDuration_Z.
Qed.

Lemma formatDuration_hours_minutes_seconds_witness :
  formatDuration (of_Z 3999) = Returns (js "1h6m39s").
Proof.
  destruct (formatDuration_hours_minutes_seconds 3999) as [h [m [s [E [Hh [Hm [Hs F]]]]]]].
  - split; [lia | reflexivity].
  - rewrite F. assert (h = 1 /\ m = 6 /\ s = 39) as [-> [-> ->]] by lia.
    reflexivity.
Defined.

(** X16: a non-negative fractional input is formatted as its nearest whole
    number, a half going up. *)
Theorem formatDuration_rounds_half_up (q : Q) :
  (0 <= q)%Q ->
  formatDuration (Fin q) = formatDuration (of_Z (Qfloor (q + (1 # 2)))).
Proof.
  intros H.
  assert (0 <= Qfloor (q + (1 # 2))) as N.
  { change 0 with (Qfloor 0). apply Qfloor_resp_le. lra. }
  unfold formatDuration.
  rewrite (SignFacts.less_than_zero q H), less_than_Z.
  destruct (Z.ltb_spec (Qfloor (q + (1 # 2))) 0) as [|_]; [lia|].
  rewrite Math_round_Z. reflexivity.
Qed.

Lemma formatDuration_rounds_half_up_witness :
  formatDuration (Fin (119 # 2)) = Returns (js "1m").
Proof.
  rewrite (formatDuration_rounds_half_up (119 # 2)).
  - reflexivity.
  - unfold Qle. simpl. lia.
Defined.

Lemma less_than_zero_iff (x : number) :
  (x <? of_Z 0)%num = true <->
  x = Inf true \/ exists q, x = Fin q /\ (q < 0)%Q.
Proof.
  destruct x as [|[]|q].
  - split; [discriminate | intros [? | [q [? _]]]; discriminate].
  - split; [now left | intros _; reflexivity].
  - split; [discriminate | intros [? | [q [? _]]]; discriminate].
  - unfold less_than, of_Z. destruct (Qcompare q (0 # 1)) eqn:C.
    + split; [discriminate|]. intros [? | [q' [[= <-] L]]]; [discriminate|].
      apply (proj1 (Qlt_alt _ _)) in L. congruence.
    + split; [|reflexivity]. intros _. right. exists q.
      split; [reflexivity | now apply Qlt_alt].
    + split; [discriminate|]. intros [? | [q' [[= <-] L]]]; [discriminate|].
      apply (proj1 (Qlt_alt _ _)) in L. congruence.
Qed.

(** X17: [formatDuration] throws exactly on negative numbers and minus
    infinity, always with the same error; it never returns the empty text;
    NaN is not rejected and gives "NaNs", and infinity gives "Infinityh". *)
Theorem formatDuration_errors (seconds : number) :
  (formatDuration seconds = Throws duration_error
   <-> seconds = Inf true \/ exists q, seconds = Fin q /\ (q < 0)%Q)
  /\ (forall e, formatDuration seconds = Throws e -> e = duration_error)
  /\ (forall text, formatDuration seconds = Returns text -> text <> [])
  /\ formatDuration NaN = Returns (js "NaNs")
  /\ formatDuration (Inf false) = Returns (js "Infinityh").
Proof.
  split; [|split; [|split; [|split; reflexivity]]].
  - rewrite <- less_than_zero_iff. unfold formatDuration.
    destruct (seconds <? of_Z 0)%num; split; try reflexivity; discriminate.
  - unfold formatDuration.
    destruct (seconds <? of_Z 0)%num; [now intros e [= <-] | discriminate].
  - unfold formatDuration.
    destruct (seconds <? of_Z 0)%num; [discriminate|].
    cbv zeta. intros text [= <-].
    match goal with
    | |- (if ?c || jsstring_eqb ?r [] then _ else _) <> [] =>
        destruct c; cbn [orb];
        [| destruct (jsstring_eqb r []) eqn:E;
           [| intros K; rewrite K in E; discriminate E]];
        intros K; apply app_eq_nil in K as [_ K];
        apply app_eq_nil in K as [_ K]; discriminate K
    end.
Qed.

(** ** Distinct durations, distinct texts *)

Lemma js_inj (a b : string) : js a = js b -> a = b.
Proof.
  unfold js. intros H.
  rewrite <- (string_of_list_ascii_of_string a),
          <- (string_of_list_ascii_of_string b).
  f_equal. revert H.
  generalize (list_ascii_of_string a) as la, (list_ascii_of_string b) as lb.
  induction la as [|x la IH]; intros [|y lb]; simpl; try discriminate; trivial.
  intros [= Hxy Hl]. f_equal; [|now apply IH].
  rewrite <- (ascii_N_embedding x), <- (ascii_N_embedding y). now rewrite Hxy.
Qed.

Lemma decimal_digits_inj (a b : Z) :
  0 <= a -> 0 <= b -> decimal_digits a = decimal_digits b -> a = b.
Proof.
  intros Ha Hb H. apply js_inj in H.
  assert (N.to_uint (Z.to_N a) = N.to_uint (Z.to_N b)) as U.
  { pose proof (NilEmpty.usu (N.to_uint (Z.to_N a))) as Ua.
    rewrite H, NilEmpty.usu in Ua. now injection Ua. }
  apply (f_equal N.of_uint) in U. rewrite !DecimalN.Unsigned.of_to in U. lia.
Qed.

Lemma string_of_uint_digits (d : Decimal.uint) :
  forallb is_digit (js (NilEmpty.string_of_uint d)) = true.
Proof. induction d; simpl; trivial. Qed.

Lemma decimal_digits_digits (z : Z) :
  forallb is_digit (decimal_digits z) = true.
Proof. apply string_of_uint_digits. Qed.

Lemma digits_then_unit (d1 d2 r1 r2 : jsstring) (u1 u2 : code_unit) :
  forallb is_digit d1 = true -> forallb is_digit d2 = true ->
  is_digit u1 = false -> is_digit u2 = false ->
  d1 ++ u1 :: r1 = d2 ++ u2 :: r2 -> d1 = d2 /\ u1 = u2 /\ r1 = r2.
Proof.
  revert d2. induction d1 as [|x d1 IH]; intros [|y d2] D1 D2 U1 U2 E;
    simpl in *.
  - now injection E.
  - injection E as -> _. apply andb_prop in D2 as [D2 _]. congruence.
  - injection E as -> _. apply andb_prop in D1 as [D1 _]. congruence.
  - injection E as -> E. apply andb_prop in D1 as [_ D1].
    apply andb_prop in D2 as [_ D2].
    destruct (IH d2 D1 D2 U1 U2 E) as [-> [-> ->]]. auto.
Qed.

Lemma render_inj (l l' : list segment) :
  Forall well_formed l -> Forall well_formed l' ->
  render l = render l' -> l = l'.
Proof.
  intros W. revert l'.
  induction W as [|[d u] l [Wd Wu] W IH]; intros l' W' E.
  - destruct W' as [|[d' u'] l' _ _]; [reflexivity|].
    simpl in E. now destruct d'.
  - destruct W' as [|[d' u'] l' [Wd' Wu'] W'].
    + simpl in E. now destruct d.
    + cbn [render flat_map fst snd] in E. rewrite <- !app_assoc in E.
      cbn [app] in E.
      destruct (digits_then_unit d d' _ _ u u' Wd Wd' Wu Wu' E) as [-> [-> R]].
      f_equal. now apply IH.
Qed.

Lemma hms_render (h m s : Z) : hms h m s = render (segments h m s).
Proof.
  unfold hms, component, segments, render.
  destruct (h =? 0), (m =? 0), ((s =? 0) && _)%bool; cbn;
    rewrite <- ?app_assoc, ?app_nil_r; reflexivity.
Qed.

Lemma segments_well_formed (h m s : Z) : Forall well_formed (segments h m s).
Proof.
  unfold segments.
  destruct (h =? 0), (m =? 0), ((s =? 0) && _)%bool; cbn;
    repeat constructor; apply decimal_digits_digits.
Qed.

Lemma hms_inj (h m s h' m' s' : Z) :
  0 <= h -> 0 <= m -> 0 <= s -> 0 <= h' -> 0 <= m' -> 0 <= s' ->
  hms h m s = hms h' m' s' -> h = h' /\ m = m' /\ s = s'.
Proof.
  intros Hh Hm Hs Hh' Hm' Hs' E. rewrite !hms_render in E.
  apply render_inj in E; try apply segments_well_formed.
  unfold segments in E.
  destruct (Z.eqb_spec h 0), (Z.eqb_spec m 0), (Z.eqb_spec s 0),
    (Z.eqb_spec h' 0), (Z.eqb_spec m' 0), (Z.eqb_spec s' 0);
    cbn in E; try discriminate E; subst;
    repeat match goal with
           | H : _ :: _ = _ :: _ |- _ => inversion H; clear H
           | H : decimal_digits _ = decimal_digits _ |- _ =>
               apply decimal_digits_inj in H; [| lia | lia]
           end; subst; auto.
Qed.

(** X18: two different whole numbers of seconds below 2^53 never get the
    same text. *)
Theorem formatDuration_distinct (n n' : Z) :
  0 <= n < 2 ^ 53 -> 0 <= n' < 2 ^ 53 -> n <> n' ->
  formatDuration (of_Z n) <> formatDuration (of_Z n').
Proof.
  intros [H _] [H' _] Hne E. apply Hne.
  rewrite !formatDuration_Z in E by assumption. injection E as E.
  apply hms_inj in E as [Eh [Em Es]]; Z.div_mod_to_equations; lia.
Qed.

Lemma formatDuration_distinct_witness :
  formatDuration (of_Z 60) <> formatDuration (of_Z 3600).
Proof.
  apply (formatDuration_distinct 60 3600).
  - split; [lia | reflexivity].
  - split; [lia | reflexivity].
  - discriminate.
Defined.
